(** * Route network: node index, graph builder, BFS pathfinder, node resolver

    A shallow embedding of [src/core/modified.py] (the split files
    [bfs_shortest_path2.py], [networkx_mapNetworking3.py],
    [5_combined_data_to_graph.py] and
    [6_build_networkGraph_from_combined_data.py] hold the same functions).

    Conventions of the embedding:
    - Python [str] values are Rocq strings read as sequences of code points
      below 256; [strip] and [lower] follow Python on that range.
    - Python [dict]s are insertion-ordered association lists ([Dict.t]).
    - Python floats are [spec_float]s (sign, mantissa, binary exponent).
    - a row of a point layer is the row [iterrows] yields: each cell has the
      type of its column in the frame that is read (in a float64 column the
      id 17 is the float 17.0, and a missing value is a NaN).
    - node ids are Python ints, here [Z].
    - A Python function that can raise or loop has an [outcome]. *)

From Stdlib Require Import ZArith List String Ascii Bool Lia.
From Stdlib Require Import DecimalString DecimalZ SpecFloat.
Import ListNotations.

Open Scope string_scope.
Open Scope list_scope.
Open Scope Z_scope.

(** ** Decimal numerals *)

(** The decimal digits of [n] ([n] not negative). *)
Definition digits (n : Z) : string :=
  NilZero.string_of_uint (N.to_uint (Z.to_N n)).

Fixpoint zeros (k : nat) : string :=
  match k with O => "" | S k' => String "0" (zeros k') end.

(** ** Python built-ins used by the program *)

Module Py.

(** [str.isspace] on code points below 256. *)
Definition isspace (c : ascii) : bool :=
  let n := nat_of_ascii c in
  ((9 <=? n) && (n <=? 13))%nat || ((28 <=? n) && (n <=? 32))%nat
  || (n =? 133)%nat || (n =? 160)%nat.

Fixpoint lstrip (s : string) : string :=
  match s with
  | EmptyString => EmptyString
  | String c r => if isspace c then lstrip r else s
  end.

Fixpoint rstrip (s : string) : string :=
  match s with
  | EmptyString => EmptyString
  | String c r =>
      match rstrip r with
      | EmptyString => if isspace c then EmptyString else String c EmptyString
      | r' => String c r'
      end
  end.

(** [s.strip()] *)
Definition strip (s : string) : string := rstrip (lstrip s).

(** [str.lower] on one code point below 256: A-Z, and the Latin-1 capitals
    0xC0-0xDE except the multiplication sign 0xD7. *)
Definition lower_char (c : ascii) : ascii :=
  let n := nat_of_ascii c in
  if (((65 <=? n) && (n <=? 90)) ||
      ((192 <=? n) && (n <=? 222) && negb (n =? 215)))%nat
  then ascii_of_nat (n + 32) else c.

(** [s.lower()] *)
Fixpoint lower (s : string) : string :=
  match s with
  | EmptyString => EmptyString
  | String c r => String (lower_char c) (lower r)
  end.

(** [str(n)] for an int. *)
Definition str_of_int (n : Z) : string := NilZero.string_of_int (Z.to_int n).

(** *** [repr] of a float *)

(** The binary64 form of [m * 2^e]: a mantissa below [2^53] and an exponent
    not below [-1074]; the mantissa has 53 bits unless the exponent is
    [-1074]. *)
Definition binary64 (m : positive) (e : Z) : Z * Z :=
  let E := Z.max (e + Z.log2 (Zpos m) + 1 - 53) (-1074) in
  (if E <=? e then Zpos m * 2 ^ (e - E) else Zpos m / 2 ^ (E - e), E).

(** [D * 10^k] compared with [X * 2^F]. *)
Definition compare_decimal (D k X F : Z) : comparison :=
  (D * 10 ^ Z.max k 0 * 2 ^ Z.max (- F) 0) ?= (X * 2 ^ Z.max F 0 * 10 ^ Z.max (- k) 0).

(** Does the decimal [D * 10^k] read back as the float [M * 2^E]? It does
    when it lies between the midpoints to the two neighbouring floats, a
    midpoint included when [M] is even. Just above a power of two the lower
    neighbour is half as far. The bounds are counted in quarters of [2^E]. *)
Definition reads_back (M E D k : Z) : bool :=
  let below := if (M =? 2 ^ 52) && (-1074 <? E) then 1 else 2 in
  match compare_decimal D k (4 * M - below) (E - 2),
        compare_decimal D k (4 * M + 2) (E - 2) with
  | Gt, Lt => true
  | Eq, Lt | Gt, Eq => Z.even M
  | _, _ => false
  end.

(** The least [t] with [M * 2^E < 10^t], looked for around the estimate
    that the binary logarithm gives. *)
Definition decimal_exponent (M E : Z) : Z :=
  let t := (Z.log2 M + E) * 1233 / 4096 in
  match find (fun t => match compare_decimal 1 t M E with Gt => true | _ => false end)
             [t - 1; t; t + 1; t + 2] with
  | Some t => t
  | None => t + 3
  end.

(** The shortest decimal that reads back as [M * 2^E], and of two of one
    length the nearer: its digits as a number [D] and the exponent [k] of
    the value [D * 10^k]. The search starts with [n] digits; seventeen
    always do. *)
Fixpoint shortest (M E t : Z) (n : Z) (fuel : nat) : Z * Z :=
  let k := t - n in
  let lo := (M * 2 ^ Z.max E 0 * 10 ^ Z.max (- k) 0) / (2 ^ Z.max (- E) 0 * 10 ^ Z.max k 0) in
  let hi := lo + 1 in
  let nearer :=
    match compare_decimal (lo + hi) k (2 * M) E with
    | Gt => lo
    | Lt => hi
    | Eq => if Z.even lo then lo else hi
    end in
  match fuel with
  | O => (nearer, k)
  | S fuel' =>
      match reads_back M E lo k, reads_back M E hi k with
      | true, true => (nearer, k)
      | true, false => (lo, k)
      | false, true => (hi, k)
      | false, false => shortest M E t (n + 1) fuel'
      end
  end.

Fixpoint rstrip_zeros (s : string) : string :=
  match s with
  | EmptyString => EmptyString
  | String c r =>
      match rstrip_zeros r with
      | EmptyString => if Ascii.eqb c "0" then EmptyString else String c EmptyString
      | r' => String c r'
      end
  end.

(** The text of a positive float from its digits [ds] and the place [decpt]
    of the point, counted from the first digit: with an exponent when
    [decpt <= -4] or [decpt > 16], else plain, with ".0" after a whole
    number. *)
Definition repr_digits (ds : string) (decpt : Z) : string :=
  let n := Z.of_nat (String.length ds) in
  if (decpt <=? -4) || (16 <? decpt) then
    let exp := decpt - 1 in
    substring 0 1 ds
    ++ (if 1 <? n then "." ++ substring 1 (String.length ds - 1) ds else "")
    ++ "e" ++ (if exp <? 0 then "-" else "+")
    ++ (if Z.abs exp <? 10 then "0" else "") ++ digits (Z.abs exp)
  else if decpt <=? 0 then
    "0." ++ zeros (Z.to_nat (- decpt)) ++ ds
  else if decpt <? n then
    substring 0 (Z.to_nat decpt) ds ++ "."
    ++ substring (Z.to_nat decpt) (String.length ds - Z.to_nat decpt) ds
  else
    ds ++ zeros (Z.to_nat (decpt - n)) ++ ".0".

(** [repr(v)], which [str(v)] returns too, for a float. *)
Definition repr_float (v : spec_float) : string :=
  match v with
  | S754_nan => "nan"
  | S754_infinity s => (if s then "-" else "") ++ "inf"
  | S754_zero s => (if s then "-" else "") ++ "0.0"
  | S754_finite s m e =>
      let '(M, E) := binary64 m e in
      let '(D, k) := shortest M E (decimal_exponent M E) 1 16 in
      let ds := digits D in
      (if s then "-" else "")
      ++ repr_digits (rstrip_zeros ds) (Z.of_nat (String.length ds) + k)
  end.

(** *** Cells *)

(** A cell of a row. [NA] is None, or a column that is not there and is
    read through [row.get]; in a float64 column a missing value is the
    float NaN. *)
Inductive cell : Type :=
| NA
| Str (s : string)
| Int (n : Z)
| Float (v : spec_float).

(** [pd.notna(c)] *)
Definition notna (c : cell) : bool :=
  match c with
  | NA | Float S754_nan => false
  | _ => true
  end.

(** [str(c)] *)
Definition str (c : cell) : string :=
  match c with
  | NA => "None"
  | Str s => s
  | Int n => str_of_int n
  | Float v => repr_float v
  end.

(** What a Python call produces: a value, an exception, or no answer within
    the given number of loop iterations. *)
Inductive outcome (A : Type) : Type :=
| Return (a : A)
| Raise (exn : string)
| OutOfFuel.
Arguments Return {A} a.
Arguments Raise {A} exn.
Arguments OutOfFuel {A}.

End Py.

(** ** Insertion-ordered dictionaries *)

Class EqDec (K : Type) : Type := {
  eqb : K -> K -> bool;
  eqb_spec : forall x y : K, reflect (x = y) (eqb x y)
}.

#[export] Instance Z_EqDec : EqDec Z :=
  {| eqb := Z.eqb; eqb_spec := Z.eqb_spec |}.
#[export] Instance string_EqDec : EqDec string :=
  {| eqb := String.eqb; eqb_spec := String.eqb_spec |}.

Module Dict.
Section Dict.
Context {K V : Type} `{EqDec K}.

Definition t : Type := list (K * V).

Definition empty : t := [].

(** [d.get(k)] *)
Fixpoint get (k : K) (d : t) : option V :=
  match d with
  | [] => None
  | (k', v) :: r => if eqb k k' then Some v else get k r
  end.

(** [k in d] *)
Definition mem (k : K) (d : t) : bool :=
  match get k d with Some _ => true | None => false end.

(** [d[k] = v]: an existing key keeps its position, a new key goes last. *)
Fixpoint set (k : K) (v : V) (d : t) : t :=
  match d with
  | [] => [(k, v)]
  | (k', v') :: r => if eqb k k' then (k', v) :: r else (k', v') :: set k v r
  end.

Definition keys (d : t) : list K := map fst d.
Definition values (d : t) : list V := map snd d.
Definition items (d : t) : list (K * V) := d.

End Dict.
Arguments t : clear implicits.
End Dict.

(** [x in l] for a Python set or list of ints. *)
Definition memZ (x : Z) (l : list Z) : bool := existsb (Z.eqb x) l.

(** ** Coordinate Key Encoder: the f-string [f"{x:.{precision}f},{y:.{precision}f}"] *)

(** A shapely coordinate pair. *)
Record point : Type := { x : spec_float; y : spec_float }.

(** [a == b] for two floats: equal values, so that the two zeros are equal
    and a NaN equals nothing, itself included. *)
Definition float_eqb (a b : spec_float) : bool :=
  match a, b with
  | S754_zero _, S754_zero _ => true
  | S754_infinity s, S754_infinity s' => Bool.eqb s s'
  | S754_finite s m e, S754_finite s' m' e' =>
      Bool.eqb s s' &&
      (Zpos m * 2 ^ (e - Z.min e e') =? Zpos m' * 2 ^ (e' - Z.min e e'))
  | _, _ => false
  end.

(** [a == b] for two shapely points: equal coordinates. *)
Definition point_eqb (a b : point) : bool :=
  float_eqb (x a) (x b) && float_eqb (y a) (y b).

(** [num / den] rounded to the nearest integer, ties to the even one
    ([den] positive, [num] not negative). *)
Definition round_half_even (num den : Z) : Z :=
  let q := num / den in
  let r := num mod den in
  match 2 * r ?= den with
  | Lt => q
  | Gt => q + 1
  | Eq => if Z.even q then q else q + 1
  end.

(** [m * 2^e * 10^p] as an integer, correctly rounded: the digits that the
    format code [.pf] prints for the magnitude of a finite float. *)
Definition scaled (p : nat) (m : positive) (e : Z) : Z :=
  if 0 <=? e then Zpos m * 2 ^ e * 10 ^ Z.of_nat p
  else round_half_even (Zpos m * 10 ^ Z.of_nat p) (2 ^ (- e)).

(** The decimal numeral of [n / 10^p] with exactly [p] fractional digits;
    no point is printed when [p = 0]. *)
Definition fixed (p : nat) (n : Z) : string :=
  let ds := digits n in
  let ds := (zeros (S p - String.length ds) ++ ds)%string in
  let k := (String.length ds - p)%nat in
  match p with
  | O => ds
  | _ => (substring 0 k ds ++ "." ++ substring k p ds)%string
  end.

Definition sign_str (s : bool) : string := if s then "-" else "".

(** [format(v, ".pf")] for a float [v] and [p] decimal digits. *)
Definition format_f (p : nat) (v : spec_float) : string :=
  (match v with
  | S754_nan => "nan"
  | S754_infinity s => sign_str s ++ "inf"
  | S754_zero s => sign_str s ++ fixed p 0
  | S754_finite s m e => sign_str s ++ fixed p (scaled p m e)
  end)%string.

Definition coords_key (precision : nat) (pt : point) : string :=
  (format_f precision (x pt) ++ "," ++ format_f precision (y pt))%string.

(** Rounding to [p] decimals as the specification uses it to compare
    coordinates ([round(a, p) == round(b, p)]): the rounded value as a
    number, so that a negative and a positive zero are equal and a NaN
    equals nothing. [RNum z] stands for [z / 10^p]. *)
Inductive rounded : Type :=
| RNan
| RInf (negative : bool)
| RNum (z : Z).

Definition spec_round (p : nat) (v : spec_float) : rounded :=
  match v with
  | S754_nan => RNan
  | S754_infinity s => RInf s
  | S754_zero _ => RNum 0
  | S754_finite s m e => RNum (if s then - scaled p m e else scaled p m e)
  end.

Definition rounded_eqb (a b : rounded) : bool :=
  match a, b with
  | RInf s, RInf s' => Bool.eqb s s'
  | RNum z, RNum z' => z =? z'
  | _, _ => false
  end.

(** The sign bit of a float ([math.copysign(1, v) < 0]). *)
Definition signbit (v : spec_float) : bool :=
  match v with
  | S754_zero s | S754_infinity s | S754_finite s _ _ => s
  | S754_nan => false
  end.

(** ** Node Resolver: [find_networkx_id] *)

Record details : Type := {
  geometry : point;
  name : string;
  qgis_id : string
}.

(** The [for networkx_id, details in details_dict.items()] loop. *)
Fixpoint find_networkx_id_loop (stripped_identifier : string)
    (items : list (Z * details)) (search_by : string) : option Z :=
  match items with
  | [] => None
  | (networkx_id, d) :: rest =>
      if (search_by =? "id")%string then
        if (qgis_id d =? stripped_identifier)%string then Some networkx_id
        else find_networkx_id_loop stripped_identifier rest search_by
      else if (search_by =? "name")%string then
        if (Py.lower (name d) =? Py.lower stripped_identifier)%string then Some networkx_id
        else find_networkx_id_loop stripped_identifier rest search_by
      else find_networkx_id_loop stripped_identifier rest search_by
  end.

Definition find_networkx_id (identifier : string)
    (details_dict : Dict.t Z details) (search_by : string) : option Z :=
  let stripped_identifier := Py.strip identifier in
  find_networkx_id_loop stripped_identifier (Dict.items details_dict) search_by.

(** ** Node Index Builder: [prepare_graph_nodes] *)

(** A row of a point layer, as [iterrows] yields it: its geometry and its
    other columns. *)
Record point_row : Type := {
  row_geometry : point;
  row_columns : Dict.t string Py.cell
}.

(** [row.get(col)] *)
Definition row_get (col : string) (columns : Dict.t string Py.cell) : Py.cell :=
  match Dict.get col columns with Some c => c | None => Py.NA end.

(** [drop_duplicates(subset=['geometry'])]: a row is dropped when its
    geometry equals ([==]) that of a row kept before it. The coordinate key
    plays no part: the row at (0.0, 0) is dropped after the row at
    (-0.0, 0), whose key is another. *)
Fixpoint drop_duplicates_from (seen : list point) (rows : list point_row)
    : list point_row :=
  match rows with
  | [] => []
  | r :: rest =>
      if existsb (point_eqb (row_geometry r)) seen
      then drop_duplicates_from seen rest
      else r :: drop_duplicates_from (row_geometry r :: seen) rest
  end.

Definition drop_duplicates (rows : list point_row) : list point_row :=
  drop_duplicates_from [] rows.

(** The three variables the loop of [prepare_graph_nodes] updates. *)
Record index_state : Type := {
  node_coords_to_networkx_id : Dict.t string Z;
  networkx_id_to_details : Dict.t Z details;
  current_networkx_id : Z
}.

Definition index_init : index_state :=
  {| node_coords_to_networkx_id := Dict.empty;
     networkx_id_to_details := Dict.empty;
     current_networkx_id := 0 |}.

(** The name and the unique id read from a row, given the value of
    [current_networkx_id]. *)
Definition qgis_name_of (name_col : string) (cur : Z) (row : point_row) : string :=
  let qgis_name := row_get name_col (row_columns row) in
  if Py.notna qgis_name then Py.strip (Py.str qgis_name)
  else ("Unnamed_Node_NX_" ++ Py.str_of_int cur)%string.

Definition qgis_unique_id_of (id_col : string) (cur : Z) (row : point_row) : string :=
  let qgis_unique_id := row_get id_col (row_columns row) in
  if Py.notna qgis_unique_id then Py.strip (Py.str qgis_unique_id)
  else ("QGIS_ID_NX_" ++ Py.str_of_int cur)%string.

(** One iteration of [for idx, row in all_graph_nodes_gdf.iterrows()]. *)
Definition index_step (name_col id_col : string) (precision : nat)
    (st : index_state) (row : point_row) : index_state :=
  let point_geom := row_geometry row in
  let key := coords_key precision point_geom in
  let qgis_name := qgis_name_of name_col (current_networkx_id st) row in
  let qgis_unique_id := qgis_unique_id_of id_col (current_networkx_id st) row in
  if negb (Dict.mem key (node_coords_to_networkx_id st)) then
    let networkx_id := current_networkx_id st in
    {| node_coords_to_networkx_id :=
         Dict.set key networkx_id (node_coords_to_networkx_id st);
       networkx_id_to_details :=
         Dict.set networkx_id
           {| geometry := point_geom; name := qgis_name; qgis_id := qgis_unique_id |}
           (networkx_id_to_details st);
       current_networkx_id := current_networkx_id st + 1 |}
  else st.

Definition index_loop (name_col id_col : string) (precision : nat)
    (rows : list point_row) (st : index_state) : index_state :=
  fold_left (index_step name_col id_col precision) rows st.

(** [prepare_graph_nodes]; both layers are taken in one coordinate reference
    system (reprojection is done by geopandas before the rows are read), and
    their rows with the cells of the concatenated frame: [pd.concat] puts
    the rows of the second layer after those of the first, and gives each
    column one type for both. *)
Definition prepare_graph_nodes (intersections_gdf buildings_gdf : list point_row)
    (name_col id_col : string) (precision : nat)
    : Dict.t string Z * Dict.t Z details :=
  let all_graph_nodes_gdf := drop_duplicates (intersections_gdf ++ buildings_gdf) in
  match all_graph_nodes_gdf with
  | [] => (Dict.empty, Dict.empty)
  | _ =>
      let st := index_loop name_col id_col precision all_graph_nodes_gdf index_init in
      (node_coords_to_networkx_id st, networkx_id_to_details st)
  end.

(** ** Graph Builder: [build_network_graph] *)

(** A shapely [LineString] that has coordinates: [coords[0]] and the
    coordinates after it. [road_geometry] below is the geometry of any row,
    where a line string can be empty. *)
Record linestring : Type := {
  coords_first : point;
  coords_rest : list point
}.

(** [coords[-1]] *)
Definition coords_last (l : linestring) : point :=
  last (coords_rest l) (coords_first l).

Inductive line_geometry : Type :=
| LineString (l : linestring)
| MultiLineString (geoms : list linestring)
| OtherGeometry.

Record line_row : Type := {
  line_geom : line_geometry;
  line_columns : Dict.t string Py.cell
}.

(** The keyword arguments of [G.add_edge]. *)
Record edge_attrs : Type := {
  edge_geometry : linestring;
  description : string
}.

(** A [networkx.Graph]: its adjacency, node -> (neighbour -> attributes). *)
Definition graph : Type := Dict.t Z (Dict.t Z edge_attrs).

(** [G.add_node(n)] *)
Definition add_node (n : Z) (G : graph) : graph :=
  if Dict.mem n G then G else Dict.set n Dict.empty G.

(** [G.add_nodes_from(ns)] *)
Definition add_nodes_from (ns : list Z) (G : graph) : graph :=
  fold_left (fun G n => add_node n G) ns G.

(** [G._adj[n]] of a node that is present. *)
Definition adj (G : graph) (n : Z) : Dict.t Z edge_attrs :=
  match Dict.get n G with Some d => d | None => Dict.empty end.

(** [G.add_edge(u, v, **attrs)]: both endpoints become nodes, and the
    attributes replace those of an edge already there, in both directions. *)
Definition add_edge (u v : Z) (attrs : edge_attrs) (G : graph) : graph :=
  let G := add_node u G in
  let G := add_node v G in
  let G := Dict.set u (Dict.set v attrs (adj G u)) G in
  Dict.set v (Dict.set u attrs (adj G v)) G.

(** [n in G] *)
Definition has_node (G : graph) (n : Z) : bool := Dict.mem n G.

(** [G.get_edge_data(u, v)] *)
Definition get_edge_data (G : graph) (u v : Z) : option edge_attrs :=
  match Dict.get u G with
  | Some d => Dict.get v d
  | None => None
  end.

(** [G.has_edge(u, v)] *)
Definition has_edge (G : graph) (u v : Z) : bool :=
  match get_edge_data G u v with Some _ => true | None => false end.

(** [G.neighbors(n)], which raises on a node that is not in the graph. *)
Definition neighbors (G : graph) (n : Z) : option (list Z) :=
  option_map Dict.keys (Dict.get n G).

(** [row['description'] if 'description' in row and
    pd.notna(row['description']) else 'unnamed path'] *)
Definition description_of (columns : Dict.t string Py.cell) : Py.cell :=
  match Dict.get "description" columns with
  | Some c => if Py.notna c then c else Py.Str "unnamed path"
  | None => Py.Str "unnamed path"
  end.

Definition line_description_of (row : line_row) : Py.cell :=
  description_of (line_columns row).

Definition lines_to_process (g : line_geometry) : list linestring :=
  match g with
  | LineString l => [l]
  | MultiLineString geoms => geoms
  | OtherGeometry => []
  end.

(** The body of [for single_line in lines_to_process]. *)
Definition process_line (index : Dict.t string Z) (precision : nat)
    (line_description : Py.cell) (G : graph) (single_line : linestring) : graph :=
  let start_key := coords_key precision (coords_first single_line) in
  let end_key := coords_key precision (coords_last single_line) in
  match Dict.get start_key index, Dict.get end_key index with
  | Some u, Some v =>
      if negb (u =? v) then
        add_edge u v
          {| edge_geometry := single_line;
             description := Py.strip (Py.str line_description) |} G
      else G
  | _, _ => G
  end.

(** The body of [for idx, row in road_lines_gdf.iterrows()]. *)
Definition process_row (index : Dict.t string Z) (precision : nat)
    (G : graph) (row : line_row) : graph :=
  fold_left (process_line index precision (line_description_of row))
    (lines_to_process (line_geom row)) G.

(** [build_network_graph] on rows whose line strings have coordinates: the
    graph it returns. *)
Definition build_network_graph (road_lines_gdf : list line_row)
    (index : Dict.t string Z) (precision : nat) : graph :=
  let G := add_nodes_from (Dict.values index) Dict.empty in
  fold_left (process_row index precision) road_lines_gdf G.

(** *** Rows with any geometry *)

(** The geometry of a row of the road layer: a line string is its
    coordinate sequence, empty for [LINESTRING EMPTY]. *)
Inductive road_geometry : Type :=
| RoadLineString (coords : list point)
| RoadMultiLineString (geoms : list (list point))
| RoadOther.

Record road_row : Type := {
  road_geom : road_geometry;
  road_columns : Dict.t string Py.cell
}.

Definition road_lines_to_process (g : road_geometry) : list (list point) :=
  match g with
  | RoadLineString coords => [coords]
  | RoadMultiLineString geoms => geoms
  | RoadOther => []
  end.

(** The body of [for single_line in lines_to_process]: [coords[0]] raises
    on an empty sequence, before anything else is done. *)
Definition process_line_outcome (index : Dict.t string Z) (precision : nat)
    (line_description : Py.cell) (G : graph) (coords : list point)
    : Py.outcome graph :=
  match coords with
  | [] => Py.Raise "IndexError"
  | start_point_coords :: rest =>
      Py.Return (process_line index precision line_description G
                   {| coords_first := start_point_coords; coords_rest := rest |})
  end.

(** [for single_line in lines_to_process], left at the first exception. *)
Fixpoint process_lines_outcome (index : Dict.t string Z) (precision : nat)
    (line_description : Py.cell) (G : graph) (lines : list (list point))
    : Py.outcome graph :=
  match lines with
  | [] => Py.Return G
  | coords :: rest =>
      match process_line_outcome index precision line_description G coords with
      | Py.Return G' => process_lines_outcome index precision line_description G' rest
      | Py.Raise exn => Py.Raise exn
      | Py.OutOfFuel => Py.OutOfFuel
      end
  end.

(** [for idx, row in road_lines_gdf.iterrows()], left at the first
    exception. *)
Fixpoint process_rows_outcome (index : Dict.t string Z) (precision : nat)
    (G : graph) (rows : list road_row) : Py.outcome graph :=
  match rows with
  | [] => Py.Return G
  | row :: rest =>
      match process_lines_outcome index precision
              (description_of (road_columns row)) G
              (road_lines_to_process (road_geom row)) with
      | Py.Return G' => process_rows_outcome index precision G' rest
      | Py.Raise exn => Py.Raise exn
      | Py.OutOfFuel => Py.OutOfFuel
      end
  end.

(** [build_network_graph] on any rows: the graph it returns, or the
    exception it raises. *)
Definition build_network_graph_outcome (road_lines_gdf : list road_row)
    (index : Dict.t string Z) (precision : nat) : Py.outcome graph :=
  let G := add_nodes_from (Dict.values index) Dict.empty in
  process_rows_outcome index precision G road_lines_gdf.

(** ** Pathfinder: [bfs_shortest_path] *)

(** The [for neighbor in graph.neighbors(current_node)] loop. *)
Fixpoint visit_neighbors (path : list Z) (nbrs : list Z)
    (visited : list Z) (queue : list (Z * list Z))
    : list Z * list (Z * list Z) :=
  match nbrs with
  | [] => (visited, queue)
  | neighbor :: rest =>
      if negb (memZ neighbor visited)
      then visit_neighbors path rest (neighbor :: visited)
             (queue ++ [(neighbor, path ++ [neighbor])])
      else visit_neighbors path rest visited queue
  end.

(** The [while queue] loop, at most [fuel] tests of the queue. *)
Fixpoint bfs_loop (fuel : nat) (G : graph) (end_node : Z)
    (queue : list (Z * list Z)) (visited : list Z)
    : Py.outcome (option (list Z)) :=
  match fuel with
  | O => Py.OutOfFuel
  | S fuel' =>
      match queue with
      | [] => Py.Return None
      | (current_node, path) :: queue' =>
          if current_node =? end_node then Py.Return (Some path)
          else
            match neighbors G current_node with
            | None => Py.Raise "NetworkXError"
            | Some nbrs =>
                let '(visited', queue'') :=
                  visit_neighbors path nbrs visited queue' in
                bfs_loop fuel' G end_node queue'' visited'
            end
      end
  end.

Definition bfs_shortest_path_fuel (fuel : nat) (G : graph)
    (start_node end_node : Z) : Py.outcome (option (list Z)) :=
  if start_node =? end_node then Py.Return (Some [start_node])
  else if negb (has_node G start_node) || negb (has_node G end_node)
  then Py.Return None
  else bfs_loop fuel G end_node [(start_node, [start_node])] [start_node].

(** Every node enters the queue at most once, so one test of the queue per
    node and a last one on the empty queue are enough. *)
Definition bfs_shortest_path (G : graph) (start_node end_node : Z)
    : Py.outcome (option (list Z)) :=
  bfs_shortest_path_fuel (S (List.length G)) G start_node end_node.

(** ** Path Narrator: [find_and_print_path] *)

Definition COORD_PRECISION : nat := 6.

(** The search modes the main block passes on: 'id' and 'name'. *)
Inductive search_by : Type := ById | ByName.

Definition search_by_str (m : search_by) : string :=
  match m with ById => "id" | ByName => "name" end.

(** The start and the end prompt of the main block. *)
Inductive endpoint : Type := START | END.

(** One call of [print], or the prompt of one call of [input]: the variable
    parts of the text are the arguments; [render] gives the text. *)
Inductive message : Type :=
| Text (line : string)
| StartNotFound (start_id_str search_type : string)
| EndNotFound (end_id_str search_type : string)
| SameLocation (start_node_name start_node_qgis_id : string)
| AlreadyAt (start_node_name start_node_qgis_id : string) (at_point : point)
| Searching (start_node_name start_node_qgis_id end_node_name end_node_qgis_id : string)
| StartLocation (start_node_qgis_id start_node_name : string)
| Destination (end_node_qgis_id end_node_name : string)
| Sequence (path_qgis_ids : list string)
| StepCount (steps : Z)
| Arrive (step : Z) (node_name node_qgis_id : string) (at_point : point)
| Proceed (line_description : string)
| Warning (node_name next_name : string)
| NoPath (start_node_name end_node_name : string)
| Prompt (which : endpoint) (mode : search_by)
| NotFoundRetry (which : endpoint) (identifier : string) (mode : search_by).

Definition nl : string := String "010"%char "".
Definition dquote : string := String "034"%char "".

Definition calculating : message := Text (nl ++ "--- Calculating Shortest Path ---").
Definition journey_details : message := Text (nl ++ "--- Journey Details ---").
Definition journey_complete_here : message := Text "Journey complete!".
Definition path_found : message := Text (nl ++ "Path found:").
Definition directions : message := Text (nl ++ "--- Step-by-Step Directions ---").
Definition journey_complete : message := Text (nl ++ "Journey complete!").
Definition no_path_help : list message :=
  [ Text "This means there's no continuous route through the network from your starting point to your destination.";
    Text "This could happen if:";
    Text "  - Your start or end locations are isolated from the main road network.";
    Text "  - There are gaps or missing connections in the road data.";
    Text "Please verify the entered unique identifiers or names." ].

(** [repr] of a [str]: the quote is the apostrophe unless the text has an
    apostrophe and no double quote; backslash, the quote, tab, newline and
    carriage return are escaped, other unprintable code points are written
    in hexadecimal. *)
Definition printable (c : ascii) : bool :=
  let n := nat_of_ascii c in
  (((32 <=? n) && (n <=? 126)) || ((161 <=? n) && negb (n =? 173)))%nat.

Definition hex_digit (n : nat) : ascii :=
  nth n (list_ascii_of_string "0123456789abcdef") "0"%char.

Definition repr_char (quote c : ascii) : string :=
  let n := nat_of_ascii c in
  if Ascii.eqb c quote || Ascii.eqb c "092"%char then String "092"%char (String c "")
  else if (n =? 9)%nat then String "092"%char "t"
  else if (n =? 10)%nat then String "092"%char "n"
  else if (n =? 13)%nat then String "092"%char "r"
  else if printable c then String c ""
  else String "092"%char
         (String "x"%char (String (hex_digit (n / 16)) (String (hex_digit (n mod 16)) ""))).

Fixpoint has_char (c : ascii) (s : string) : bool :=
  match s with
  | EmptyString => false
  | String c' r => Ascii.eqb c c' || has_char c r
  end.

Fixpoint repr_chars (quote : ascii) (s : string) : string :=
  match s with
  | EmptyString => EmptyString
  | String c r => (repr_char quote c ++ repr_chars quote r)%string
  end.

Definition repr_str (s : string) : string :=
  let quote :=
    if has_char "039"%char s && negb (has_char "034"%char s)
    then "034"%char else "039"%char in
  (String quote (repr_chars quote s) ++ String quote "")%string.

(** [repr] of a list of [str]. *)
Definition repr_list (l : list string) : string :=
  ("[" ++ String.concat ", " (map repr_str l) ++ "]")%string.

Definition coordinates (pt : point) : string :=
  ("(" ++ format_f COORD_PRECISION (x pt) ++ ", "
       ++ format_f COORD_PRECISION (y pt) ++ ")")%string.

(** [SEARCH_BY_TYPE.upper()] *)
Definition search_by_upper (m : search_by) : string :=
  match m with ById => "ID" | ByName => "NAME" end.

Definition endpoint_upper (w : endpoint) : string :=
  match w with START => "START" | END => "END" end.

Definition endpoint_title (w : endpoint) : string :=
  match w with START => "Start" | END => "End" end.

(** The text of a message. *)
Definition render (m : message) : string :=
  (match m with
   | Text line => line
   | StartNotFound i t =>
       "Error: Start node '" ++ i ++ "' not found in graph using '" ++ t
       ++ "'. Please check your data for exact ID/Name."
   | EndNotFound i t =>
       "Error: End node '" ++ i ++ "' not found in graph using '" ++ t
       ++ "'. Please check your data for exact ID/Name."
   | SameLocation n q =>
       "Your start and end locations are the same: '" ++ n ++ "' (Unique ID: " ++ q ++ ")."
   | AlreadyAt n q pt =>
       "Step 1: You are already at: '" ++ n ++ "' (Unique ID: " ++ q
       ++ ") at coordinates " ++ coordinates pt ++ "."
   | Searching sn sq en eq =>
       nl ++ "Searching for path from '" ++ sn ++ "' (Unique ID: " ++ sq
       ++ ") to '" ++ en ++ "' (Unique ID: " ++ eq ++ ")."
   | StartLocation q n =>
       "Start location identifier: " ++ q ++ "; Name: " ++ dquote ++ n ++ dquote
   | Destination q n =>
       "Destination identifier: " ++ q ++ "; Name: " ++ dquote ++ n ++ dquote
   | Sequence ids => "BFS shortest path (sequence of Node IDs): " ++ repr_list ids
   | StepCount k =>
       "This journey will take " ++ Py.str_of_int k ++ " steps (road segments)."
   | Arrive i n q pt =>
       "Step " ++ Py.str_of_int i ++ ": Arrive at '" ++ n ++ "' (Node ID: " ++ q
       ++ ") at coordinates " ++ coordinates pt ++ "."
   | Proceed d =>
       "    - From here, proceed along '" ++ d ++ "' towards the next location."
   | Warning n n' =>
       "    - WARNING: No direct road description found between '" ++ n
       ++ "' and '" ++ n' ++ "'."
   | NoPath sn en =>
       nl ++ "No continuous path found between '" ++ sn ++ "' and '" ++ en ++ "'."
   | Prompt w mode =>
       "Enter the " ++ search_by_upper mode ++ " of the " ++ endpoint_upper w
       ++ " node (or type 'exit' to quit): "
   | NotFoundRetry w i mode =>
       "Error: " ++ endpoint_title w ++ " node '" ++ i
       ++ "' not found. Please try again with a valid " ++ search_by_upper mode ++ "."
   end)%string.

(** What a function that prints produces: the messages printed, in order,
    and how the call ended. *)
Definition out (A : Type) : Type := list message * Py.outcome A.

Definition ret {A : Type} (a : A) : out A := ([], Py.Return a).

Definition bind {A B : Type} (m : out A) (k : A -> out B) : out B :=
  match m with
  | (printed, Py.Return a) => let '(printed', r) := k a in (printed ++ printed', r)
  | (printed, Py.Raise exn) => (printed, Py.Raise exn)
  | (printed, Py.OutOfFuel) => (printed, Py.OutOfFuel)
  end.

Declare Scope out_scope.
Delimit Scope out_scope with out.
Notation "x <- m ;; k" := (bind m (fun x => k))
  (at level 61, m at next level, right associativity) : out_scope.
Notation "m ;; k" := (bind m (fun _ => k))
  (at level 61, right associativity) : out_scope.
Open Scope out_scope.

Definition print (m : message) : out unit := ([m], Py.Return tt).

Fixpoint print_all (ms : list message) : out unit :=
  match ms with
  | [] => ret tt
  | m :: rest => print m ;; print_all rest
  end.

(** The result of a call that prints nothing. *)
Definition call {A : Type} (o : Py.outcome A) : out A := ([], o).

(** [d[k]], which raises on a key that is not in the dict. *)
Definition getitem (d : Dict.t Z details) (k : Z) : out details :=
  match Dict.get k d with
  | Some v => ret v
  | None => call (Py.Raise "KeyError")
  end.

(** [[networkx_id_to_details[nx_id]['qgis_id'] for nx_id in path_networkx_ids]] *)
Fixpoint qgis_ids_of (networkx_id_to_details : Dict.t Z details)
    (path_networkx_ids : list Z) : out (list string) :=
  match path_networkx_ids with
  | [] => ret []
  | nx_id :: rest =>
      d <- getitem networkx_id_to_details nx_id ;;
      ids <- qgis_ids_of networkx_id_to_details rest ;;
      ret (qgis_id d :: ids)
  end.

(** [for i in range(len(path_networkx_ids))], from index [i] on; [path] is
    what is left of the path at [i]. An edge of the graph always carries a
    description here ([add_edge] is only called with one), so
    [edge_data.get('description', ...)] reads it. *)
Fixpoint narrate_steps (G : graph) (networkx_id_to_details : Dict.t Z details)
    (i : Z) (path : list Z) : out unit :=
  match path with
  | [] => ret tt
  | current_node_id :: rest =>
      node_info <- getitem networkx_id_to_details current_node_id ;;
      print (Arrive (i + 1) (name node_info) (qgis_id node_info) (geometry node_info)) ;;
      match rest with
      | [] => ret tt
      | next_node_id :: _ =>
          if has_edge G current_node_id next_node_id then
            match get_edge_data G current_node_id next_node_id with
            | Some edge_data => print (Proceed (description edge_data))
            | None => call (Py.Raise "AttributeError")
            end
          else
            next_info <- getitem networkx_id_to_details next_node_id ;;
            print (Warning (name node_info) (name next_info))
      end ;;
      narrate_steps G networkx_id_to_details (i + 1) rest
  end.

Definition find_and_print_path (G : graph) (start_id_str end_id_str search_type : string)
    (networkx_id_to_details : Dict.t Z details) : out unit :=
  print calculating ;;
  let start_networkx_id :=
    find_networkx_id start_id_str networkx_id_to_details search_type in
  let end_networkx_id :=
    find_networkx_id end_id_str networkx_id_to_details search_type in
  match start_networkx_id, end_networkx_id with
  | None, _ => print (StartNotFound start_id_str search_type)
  | Some _, None => print (EndNotFound end_id_str search_type)
  | Some start_networkx_id, Some end_networkx_id =>
      start_info <- getitem networkx_id_to_details start_networkx_id ;;
      end_info <- getitem networkx_id_to_details end_networkx_id ;;
      let start_node_name := name start_info in
      let start_node_qgis_id := qgis_id start_info in
      let end_node_name := name end_info in
      let end_node_qgis_id := qgis_id end_info in
      if start_networkx_id =? end_networkx_id then
        print (SameLocation start_node_name start_node_qgis_id) ;;
        print journey_details ;;
        print (AlreadyAt start_node_name start_node_qgis_id (geometry start_info)) ;;
        print journey_complete_here
      else
        print (Searching start_node_name start_node_qgis_id
                         end_node_name end_node_qgis_id) ;;
        path_networkx_ids <- call (bfs_shortest_path G start_networkx_id end_networkx_id) ;;
        match path_networkx_ids with
        | Some ((_ :: _) as path) =>
            path_qgis_ids <- qgis_ids_of networkx_id_to_details path ;;
            print path_found ;;
            print (StartLocation start_node_qgis_id start_node_name) ;;
            print (Destination end_node_qgis_id end_node_name) ;;
            print (Sequence path_qgis_ids) ;;
            print directions ;;
            print (StepCount (Z.of_nat (List.length path) - 1)) ;;
            narrate_steps G networkx_id_to_details 0 path ;;
            print journey_complete
        | _ =>
            print (NoPath start_node_name end_node_name) ;;
            print_all no_path_help
        end
  end.

(** ** Interactive pathfinding loop of the main block *)

Definition find_banner : message := Text (nl ++ "--- Find Shortest Path ---").
Definition search_type_prompt : message :=
  Text "Search by 'id' (case-sensitive) or 'name' (case-insensitive)? (default: id): ".
Definition invalid_input : message := Text "Invalid input. Searching by ID by default.".
Definition exiting : message := Text "Exiting pathfinding session.".
Definition another_prompt : message :=
  Text (nl ++ "Do you want to find another path? (yes/no): ").
Definition goodbye : message := Text "Exiting pathfinding session. Goodbye!".

(** The choice of [SEARCH_BY_TYPE] from the answer to the first prompt, and
    what is printed on the way. *)
Definition choose_search_type (answer : string) : search_by * list message :=
  let user_input_for_search_type := Py.lower (Py.strip answer) in
  if ((user_input_for_search_type =? "") || (user_input_for_search_type =? "id"))%string
  then (ById, [])
  else if (user_input_for_search_type =? "name")%string then (ByName, [])
  else (ById, [invalid_input]).

(** A part of the session: from the lines of the standard input not read
    yet to the messages printed, the lines left, and how it ended. *)
Definition session (A : Type) : Type :=
  list string -> list message * list string * Py.outcome A.

Definition sret {A : Type} (a : A) : session A :=
  fun stdin => ([], stdin, Py.Return a).

Definition sbind {A B : Type} (m : session A) (k : A -> session B) : session B :=
  fun stdin =>
    match m stdin with
    | (printed, rest, Py.Return a) =>
        let '(printed', rest', r) := k a rest in (printed ++ printed', rest', r)
    | (printed, rest, Py.Raise exn) => (printed, rest, Py.Raise exn)
    | (printed, rest, Py.OutOfFuel) => (printed, rest, Py.OutOfFuel)
    end.

Declare Scope session_scope.
Delimit Scope session_scope with session.
Notation "x <- m ;; k" := (sbind m (fun x => k))
  (at level 61, m at next level, right associativity) : session_scope.
Notation "m ;; k" := (sbind m (fun _ => k))
  (at level 61, right associativity) : session_scope.

(** [input(prompt)]: the prompt is written, a line is read; at the end of
    the input it raises [EOFError]. *)
Definition input (prompt : message) : session string :=
  fun stdin =>
    match stdin with
    | [] => ([prompt], [], Py.Raise "EOFError")
    | line :: rest => ([prompt], rest, Py.Return line)
    end.

Definition say (ms : list message) : session unit :=
  fun stdin => (ms, stdin, Py.Return tt).

(** A call of a function that prints and reads nothing. *)
Definition run {A : Type} (o : out A) : session A :=
  fun stdin => (fst o, stdin, snd o).

(** The loops [while start_networkx_id is None] and [while end_networkx_id is
    None]: [None] when the user typed 'exit', else the node id and the
    identifier that resolved to it. *)
Fixpoint read_node (which : endpoint) (networkx_id_to_details : Dict.t Z details)
    (mode : search_by) (stdin : list string)
    : list message * list string * Py.outcome (option (Z * string)) :=
  match stdin with
  | [] => ([Prompt which mode], [], Py.Raise "EOFError")
  | line :: stdin' =>
      let IDENTIFIER := Py.strip line in
      if (Py.lower IDENTIFIER =? "exit")%string
      then ([Prompt which mode], stdin', Py.Return None)
      else
        match find_networkx_id IDENTIFIER networkx_id_to_details (search_by_str mode) with
        | Some networkx_id =>
            ([Prompt which mode], stdin', Py.Return (Some (networkx_id, IDENTIFIER)))
        | None =>
            let '(printed, rest, r) :=
              read_node which networkx_id_to_details mode stdin' in
            (Prompt which mode :: NotFoundRetry which IDENTIFIER mode :: printed, rest, r)
        end
  end.

(** How one pass through the body of [while True] ends. *)
Inductive round_end : Type := AnotherPath | Break.

(** The body of [while True]. *)
Definition session_round (G : graph) (networkx_id_to_details : Dict.t Z details)
    : session round_end :=
  (say [find_banner] ;;
   answer <- input search_type_prompt ;;
   let '(SEARCH_BY_TYPE, said) := choose_search_type answer in
   say said ;;
   start <- read_node START networkx_id_to_details SEARCH_BY_TYPE ;;
   match start with
   | None => say [exiting] ;; sret Break
   | Some (_, START_IDENTIFIER) =>
       end_ <- read_node END networkx_id_to_details SEARCH_BY_TYPE ;;
       match end_ with
       | None => say [exiting] ;; sret Break
       | Some (_, END_IDENTIFIER) =>
           run (find_and_print_path G START_IDENTIFIER END_IDENTIFIER
                  (search_by_str SEARCH_BY_TYPE) networkx_id_to_details) ;;
           another_path <- input another_prompt ;;
           if (Py.lower (Py.strip another_path) =? "yes")%string
           then sret AnotherPath
           else say [goodbye] ;; sret Break
       end
   end)%session.

(** [while True], at most [fuel] passes. *)
Fixpoint session_loop (fuel : nat) (G : graph)
    (networkx_id_to_details : Dict.t Z details) : session unit :=
  match fuel with
  | O => fun stdin => ([], stdin, Py.OutOfFuel)
  | S fuel' =>
      (r <- session_round G networkx_id_to_details ;;
       match r with
       | AnotherPath => session_loop fuel' G networkx_id_to_details
       | Break => sret tt
       end)%session
  end.

(** Every pass reads a line or ends the loop, so one pass per line of input
    and a last one are enough. *)
Definition pathfinding_session (G : graph) (networkx_id_to_details : Dict.t Z details)
    : session unit :=
  fun stdin => session_loop (S (List.length stdin)) G networkx_id_to_details stdin.

(** ** Vocabulary of the properties *)

(** *** Coordinate keys *)

(** Every character of [s] passes [f]. *)
Fixpoint string_forall (f : ascii -> bool) (s : string) : bool :=
  match s with
  | EmptyString => true
  | String c r => f c && string_forall f r
  end.

Definition is_digit (c : ascii) : bool :=
  let n := nat_of_ascii c in ((48 <=? n) && (n <=? 57))%nat.

(** The characters of a fixed-point key: digits, sign, point, the comma
    between the two numbers, and the letters of "inf" and "nan". No "e" or
    "E", the mark of an exponent. *)
Definition fixed_point_char (c : ascii) : bool :=
  is_digit c || existsb (Ascii.eqb c) (list_ascii_of_string "-.,infa").

Definition not_comma (c : ascii) : bool := negb (Ascii.eqb c ","%char).

(** A float with a value: a zero or a finite number. *)
Definition is_number (v : spec_float) : bool :=
  match v with S754_zero _ | S754_finite _ _ _ => true | _ => false end.

(** If [u] rounds to the value zero, [u] and [v] carry the same sign bit. *)
Definition same_sign_at_zero (p : nat) (u v : spec_float) : Prop :=
  spec_round p u = RNum 0 -> signbit u = signbit v.

(** *** Node index *)

Definition row_key (precision : nat) (row : point_row) : string :=
  coords_key precision (row_geometry row).

(** The first of [rows] with coordinate key [k]. *)
Definition first_with_key (precision : nat) (k : string) (rows : list point_row)
    : option point_row :=
  find (fun r => (row_key precision r =? k)%string) rows.

(** The details stored for a row that becomes node [i]. *)
Definition details_of (name_col id_col : string) (i : Z) (row : point_row) : details :=
  {| geometry := row_geometry row;
     name := qgis_name_of name_col i row;
     qgis_id := qgis_unique_id_of id_col i row |}.

(** The ids [0 .. n-1], in order. *)
Definition ids_upto (n : nat) : list Z := map Z.of_nat (seq 0 n).

(** What holds of the loop variables of [prepare_graph_nodes] once the rows
    [seen] are processed. *)
Record index_inv (name_col id_col : string) (precision : nat)
    (seen : list point_row) (st : index_state) : Prop := {
  inv_values :
    Dict.values (node_coords_to_networkx_id st) =
    ids_upto (List.length (node_coords_to_networkx_id st));
  inv_current :
    current_networkx_id st = Z.of_nat (List.length (node_coords_to_networkx_id st));
  inv_details_keys :
    Dict.keys (networkx_id_to_details st) = Dict.values (node_coords_to_networkx_id st);
  inv_keys_nodup : NoDup (Dict.keys (node_coords_to_networkx_id st));
  inv_domain :
    forall k, Dict.mem k (node_coords_to_networkx_id st) = true <->
              In k (map (row_key precision) seen);
  inv_first :
    forall k i, Dict.get k (node_coords_to_networkx_id st) = Some i ->
      exists r, first_with_key precision k seen = Some r /\
                Dict.get i (networkx_id_to_details st) =
                Some (details_of name_col id_col i r)
}.



(** *** Built graph *)

(** The segments of all rows in processing order, each with the description
    cell of its row. *)
Definition segments (road_lines_gdf : list line_row) : list (linestring * Py.cell) :=
  flat_map (fun row =>
              map (fun l => (l, line_description_of row))
                  (lines_to_process (line_geom row)))
           road_lines_gdf.

(** [process_line] on one element of [segments]. *)
Definition process_segment (index : Dict.t string Z) (precision : nat)
    (G : graph) (seg : linestring * Py.cell) : graph :=
  process_line index precision (snd seg) G (fst seg).

(** The node ids the two ends of a segment resolve to. *)
Definition endpoints (index : Dict.t string Z) (precision : nat) (l : linestring)
    : option Z * option Z :=
  (Dict.get (coords_key precision (coords_first l)) index,
   Dict.get (coords_key precision (coords_last l)) index).

(** The segment resolves to two different nodes, [u] and [v] in one order or
    the other. *)
Definition connects (index : Dict.t string Z) (precision : nat) (u v : Z)
    (seg : linestring * Py.cell) : bool :=
  match endpoints index precision (fst seg) with
  | (Some a, Some b) =>
      negb (a =? b) && (((a =? u) && (b =? v)) || ((a =? v) && (b =? u)))
  | _ => false
  end.

(** The attributes [build_network_graph] passes to [add_edge] for a segment. *)
Definition attrs_of (seg : linestring * Py.cell) : edge_attrs :=
  {| edge_geometry := fst seg; description := Py.strip (Py.str (snd seg)) |}.

(** The coordinates of a line string, first to last. *)
Definition coords_of (l : linestring) : list point := coords_first l :: coords_rest l.

(** The coordinate sequences [build_network_graph] reads from the rows, in
    processing order. *)
Definition road_segments (road_lines_gdf : list road_row) : list (list point) :=
  flat_map (fun row => road_lines_to_process (road_geom row)) road_lines_gdf.

(** Rows of any geometry as rows whose line strings have coordinates, when
    they all have. *)
Definition linestring_of (cs : list point) : option linestring :=
  match cs with
  | [] => None
  | c :: rest => Some {| coords_first := c; coords_rest := rest |}
  end.

Fixpoint linestrings_of (geoms : list (list point)) : option (list linestring) :=
  match geoms with
  | [] => Some []
  | cs :: rest =>
      match linestring_of cs, linestrings_of rest with
      | Some l, Some ls => Some (l :: ls)
      | _, _ => None
      end
  end.

Definition line_row_of (row : road_row) : option line_row :=
  option_map (fun g => {| line_geom := g; line_columns := road_columns row |})
    match road_geom row with
    | RoadLineString cs => option_map LineString (linestring_of cs)
    | RoadMultiLineString geoms => option_map MultiLineString (linestrings_of geoms)
    | RoadOther => Some OtherGeometry
    end.

Fixpoint line_rows_of (rows : list road_row) : option (list line_row) :=
  match rows with
  | [] => Some []
  | row :: rest =>
      match line_row_of row, line_rows_of rest with
      | Some r, Some rs => Some (r :: rs)
      | _, _ => None
      end
  end.

(** Every edge can be walked both ways with the same attributes. *)
Definition symmetric (G : graph) : Prop :=
  forall u v, get_edge_data G u v = get_edge_data G v u.

(** Every neighbour of a node is a node: what [networkx.Graph] maintains. *)
Definition well_formed (G : graph) : Prop :=
  forall u nbrs v,
    neighbors G u = Some nbrs -> In v nbrs -> has_node G v = true.

Definition well_formedb (G : graph) : bool :=
  forallb (fun '(_, d) => forallb (has_node G) (Dict.keys d)) G.

(** *** Paths and the search *)

(** [p] lists the nodes of a walk from [s] to [e], both included:
    [is_path_from G u rest e] reads [u :: rest] edge by edge. *)
Fixpoint is_path_from (G : graph) (u : Z) (rest : list Z) (e : Z) : Prop :=
  match rest with
  | [] => u = e
  | v :: rest' => has_edge G u v = true /\ is_path_from G v rest' e
  end.

Definition is_path (G : graph) (s e : Z) (p : list Z) : Prop :=
  match p with
  | [] => False
  | u :: rest => u = s /\ is_path_from G u rest e
  end.

(** Number of edges a path walks. *)
Definition hops (p : list Z) : nat := pred (List.length p).

(** A path from [s] to [u] that no other path from [s] to [u] undercuts. *)
Definition shortest_path (G : graph) (s u : Z) (p : list Z) : Prop :=
  is_path G s u p /\ forall q, is_path G s u q -> (List.length p <= List.length q)%nat.

(** Nodes of the graph the search has not marked yet. *)
Definition unvisited (G : graph) (visited : list Z) : nat :=
  List.length (filter (fun n => negb (memZ n visited)) (Dict.keys G)).

Definition level_is (d : nat) (entry : Z * list Z) : Prop :=
  List.length (snd entry) = d.

(** What holds of [queue] and [visited] each time [while queue] is tested, in
    a search from [s] for [e]: the queue holds shortest paths, of one length
    and then of the next; a visited node is in the queue, or is not [e] and
    has all its neighbours visited. *)
Record bfs_inv (G : graph) (s e : Z)
    (queue : list (Z * list Z)) (visited : list Z) : Prop := {
  bfs_paths :
    forall u p, In (u, p) queue -> shortest_path G s u p /\ In u visited;
  bfs_levels :
    exists d A B, queue = A ++ B /\
                  Forall (level_is d) A /\ Forall (level_is (S d)) B;
  bfs_visited :
    forall v, In v visited ->
      (exists p, In (v, p) queue) \/
      (v <> e /\ forall w, has_edge G v w = true -> In w visited);
  bfs_nodes : forall v, In v visited -> has_node G v = true;
  bfs_start : In s visited
}.

(** *** Messages *)

Definition is_warning (m : message) : bool :=
  match m with Warning _ _ => true | _ => false end.

Definition is_arrive (m : message) : bool :=
  match m with Arrive _ _ _ _ => true | _ => false end.

Definition is_proceed (m : message) : bool :=
  match m with Proceed _ => true | _ => false end.

(** The two errors [find_and_print_path] prints for an identifier that does
    not resolve. *)
Definition is_not_found (m : message) : bool :=
  match m with StartNotFound _ _ | EndNotFound _ _ => true | _ => false end.

(** Every node of the graph has an entry in the details. *)
Definition described (G : graph) (networkx_id_to_details : Dict.t Z details) : Prop :=
  forall n, has_node G n = true -> Dict.mem n networkx_id_to_details = true.

(** Nothing in [printed] is a warning about a missing road or an error of
    [find_and_print_path] about an unknown identifier. *)
Definition quiet (printed : list message) : Prop :=
  filter is_warning printed = [] /\ filter is_not_found printed = [].

(** Run on [stdin], the part [m] of a session prints quietly and either
    finds the input exhausted or returns a value for which [Q] holds, with
    the input that is left. *)
Definition safe {A : Type} (Q : A -> list string -> Prop) (m : session A)
    (stdin : list string) : Prop :=
  let '(printed, rest, r) := m stdin in
  quiet printed /\
  (r = Py.Raise "EOFError" \/ exists a, r = Py.Return a /\ Q a rest).

(** *** Sample data *)

(** The point [m.0] east of the origin ([m] not negative). *)
Definition pt (m : Z) : point :=
  {| x := match m with Zpos q => S754_finite false q 0 | _ => S754_zero false end;
     y := S754_zero false |}.

(** A point less than a billionth west of the origin: x is [- 2^-30]. *)
Definition west_of_origin : point :=
  {| x := S754_finite true 1 (-30); y := S754_zero false |}.

Definition road (a b : Z) : linestring :=
  {| coords_first := pt a; coords_rest := [pt b] |}.

(** The path graph A-B-C-D of the specification, as nodes 0-1-2-3, and a
    node 4 on its own. *)
Definition plain_edge : edge_attrs :=
  {| edge_geometry := road 0 1; description := "unnamed path" |}.
Definition path_graph : graph :=
  add_edge 2 3 plain_edge
    (add_edge 1 2 plain_edge
       (add_edge 0 1 plain_edge (add_nodes_from [0; 1; 2; 3; 4] Dict.empty))).

(** Two nodes and no edge. *)
Definition two_islands : graph := add_nodes_from [0; 1] Dict.empty.

(** An index of two nodes and three road rows: the second row has a segment
    from a node to itself, one to a point that is no node, and one that joins
    the two nodes again. *)
Definition sample_index : Dict.t string Z :=
  [("0.000000,0.000000", 0); ("1.000000,0.000000", 1)].
Definition sample_roads : list line_row :=
  [ {| line_geom := LineString (road 0 1);
       line_columns := [("description", Py.Str "Path1")] |};
    {| line_geom := MultiLineString [road 0 0; road 1 2; road 1 0];
       line_columns := [("description", Py.Str " Path2 ")] |};
    {| line_geom := OtherGeometry; line_columns := [] |} ].

(** A point layer of four rows: the first and the third round to one spot,
    the second has blank columns and the last has none. *)
Definition blank_row : point_row :=
  {| row_geometry := pt 2;
     row_columns := [("Name", Py.Str "   "); ("id", Py.Str "")] |}.
Definition side_gate_row : point_row :=
  {| row_geometry := {| x := S754_finite false 1 (-30); y := S754_zero false |};
     row_columns := [("Name", Py.Str "Side Gate"); ("id", Py.Str "G2")] |}.
Definition sample_points : list point_row :=
  [ {| row_geometry := pt 0;
       row_columns := [("Name", Py.Str "Main Gate "); ("id", Py.Int 17)] |};
    blank_row;
    side_gate_row;
    {| row_geometry := pt 1; row_columns := [("Name", Py.NA)] |} ].


(** The rows of a frame whose id column is float64: the id 17 reads 17.0,
    and the row without an id has a NaN. *)
Definition float_id_points : list point_row :=
  [ {| row_geometry := pt 0;
       row_columns := [("Name", Py.Str "Main Gate");
                       ("id", Py.Float (S754_finite false 17 0))] |};
    {| row_geometry := pt 1;
       row_columns := [("Name", Py.Str "Library"); ("id", Py.Float S754_nan)] |} ].

(** The sample road rows as rows of any geometry, and a layer with an empty
    line string after them. *)
Definition sample_road_rows : list road_row :=
  [ {| road_geom := RoadLineString [pt 0; pt 1];
       road_columns := [("description", Py.Str "Path1")] |};
    {| road_geom := RoadMultiLineString [[pt 0; pt 0]; [pt 1; pt 2]; [pt 1; pt 0]];
       road_columns := [("description", Py.Str " Path2 ")] |};
    {| road_geom := RoadOther; road_columns := [] |} ].
Definition empty_line_row : road_row :=
  {| road_geom := RoadLineString []; road_columns := [] |}.

(** ** Facts about dictionaries *)

Section DictFacts.
Context {K V : Type} `{EqDec K}.
Implicit Types (d : Dict.t K V) (k : K) (v : V).

Lemma eqb_refl k : eqb k k = true.
Proof. destruct (eqb_spec k k); congruence. Qed.

Lemma eqb_neq k k' : k <> k' -> eqb k k' = false.
Proof. intros; destruct (eqb_spec k k'); congruence. Qed.

Lemma get_set_eq k v d : Dict.get k (Dict.set k v d) = Some v.
Proof.
  induction d as [|[k' v'] r IH]; simpl.
  - now rewrite eqb_refl.
  - destruct (eqb_spec k k') as [->|Hne]; simpl.
    + now rewrite eqb_refl.
    + now rewrite (eqb_neq _ _ Hne).
Qed.

Lemma get_set_ne k k' v d : k <> k' -> Dict.get k' (Dict.set k v d) = Dict.get k' d.
Proof.
  intros Hne. induction d as [|[k0 v0] r IH]; simpl.
  - rewrite eqb_neq; auto.
  - destruct (eqb_spec k k0) as [->|Hne0]; simpl.
    + rewrite (eqb_neq k' k0); auto.
    + now rewrite IH.
Qed.

Lemma get_set k k' v d :
  Dict.get k' (Dict.set k v d) = if eqb k' k then Some v else Dict.get k' d.
Proof.
  destruct (eqb_spec k' k) as [->|Hne].
  - apply get_set_eq.
  - apply get_set_ne; auto.
Qed.

Lemma get_None_keys k d : Dict.get k d = None <-> ~ In k (Dict.keys d).
Proof.
  induction d as [|[k' v'] r IH]; simpl.
  - tauto.
  - destruct (eqb_spec k k') as [->|Hne].
    + split; [discriminate | tauto].
    + rewrite IH. split; [intros Hn [Hk|Hk]; [congruence | tauto] | tauto].
Qed.

Lemma mem_keys k d : Dict.mem k d = true <-> In k (Dict.keys d).
Proof.
  unfold Dict.mem. destruct (Dict.get k d) eqn:E.
  - split; auto. intros _.
    destruct (in_dec (fun a b => reflect_dec _ _ (eqb_spec a b)) k (Dict.keys d)) as [Hi|Hn]; auto.
    apply get_None_keys in Hn. congruence.
  - apply get_None_keys in E. split; [discriminate | tauto].
Qed.

Lemma get_Some_In k v d : Dict.get k d = Some v -> In (k, v) d.
Proof.
  induction d as [|[k' v'] r IH]; simpl; [discriminate|].
  destruct (eqb_spec k k') as [->|Hne].
  - intros [= ->]. now left.
  - intros Hg. right. auto.
Qed.

Lemma set_absent k v d : Dict.get k d = None -> Dict.set k v d = d ++ [(k, v)].
Proof.
  induction d as [|[k' v'] r IH]; simpl; auto.
  destruct (eqb_spec k k') as [->|Hne]; [discriminate|].
  intros Hg. now rewrite IH.
Qed.

Lemma keys_set_present k v d :
  Dict.mem k d = true -> Dict.keys (Dict.set k v d) = Dict.keys d.
Proof.
  unfold Dict.mem. induction d as [|[k' v'] r IH]; simpl; [discriminate|].
  destruct (eqb_spec k k') as [->|Hne]; simpl; auto.
  intros Hm. now rewrite IH.
Qed.

Lemma keys_set k v d :
  Dict.keys (Dict.set k v d) =
  if Dict.mem k d then Dict.keys d else Dict.keys d ++ [k].
Proof.
  destruct (Dict.mem k d) eqn:E.
  - now apply keys_set_present.
  - unfold Dict.mem in E. destruct (Dict.get k d) eqn:G; [discriminate|].
    rewrite set_absent by auto. unfold Dict.keys. now rewrite map_app.
Qed.

Lemma NoDup_keys_set k v d : NoDup (Dict.keys d) -> NoDup (Dict.keys (Dict.set k v d)).
Proof.
  intros Hnd. rewrite keys_set. destruct (Dict.mem k d) eqn:E; auto.
  apply NoDup_app; auto.
  - repeat constructor. simpl. tauto.
  - intros a Ha [<-|[]]. apply mem_keys in Ha. congruence.
Qed.

End DictFacts.

(** ** Node Resolver *)

Lemma find_networkx_id_loop_id stripped items :
  find_networkx_id_loop stripped items "id" =
  option_map fst (find (fun item => (qgis_id (snd item) =? stripped)%string) items).
Proof.
  induction items as [|[n d] rest IH]; simpl; auto.
  destruct (qgis_id d =? stripped)%string; simpl; auto.
Qed.

Lemma find_networkx_id_loop_name stripped items :
  find_networkx_id_loop stripped items "name" =
  option_map fst
    (find (fun item => (Py.lower (name (snd item)) =? Py.lower stripped)%string) items).
Proof.
  induction items as [|[n d] rest IH]; simpl; auto.
  destruct (Py.lower (name d) =? Py.lower stripped)%string; simpl; auto.
Qed.

(** C8. In mode "id" the resolver returns the first node whose stored
    unique id is, character for character, the trimmed input; in mode "name"
    the first node whose stored name and the trimmed input are equal once both
    are lowercased. So "AB1" does not find a stored "ab1", and "Main Gate"
    finds a stored "main gate". *)
Theorem find_networkx_id_matching :
  (forall identifier details_dict,
      find_networkx_id identifier details_dict "id" =
      option_map fst
        (find (fun item => (qgis_id (snd item) =? Py.strip identifier)%string)
              details_dict)) /\
  (forall identifier details_dict,
      find_networkx_id identifier details_dict "name" =
      option_map fst
        (find (fun item =>
                 (Py.lower (name (snd item)) =? Py.lower (Py.strip identifier))%string)
              details_dict)) /\
  (forall pt nm n,
      find_networkx_id "AB1" [(n, {| geometry := pt; name := nm; qgis_id := "ab1" |})] "id"
      = None) /\
  (forall pt uid n,
      find_networkx_id "Main Gate"
        [(n, {| geometry := pt; name := "main gate"; qgis_id := uid |})] "name"
      = Some n).
Proof.
  split; [|split; [|split]]; intros.
  - apply find_networkx_id_loop_id.
  - apply find_networkx_id_loop_name.
  - reflexivity.
  - reflexivity.
Qed.

(** ** Pathfinder: the cases decided before the search *)

(** C3. A query from a node to itself answers the one-node path, whatever
    the graph, also when the node is not in the graph. *)
Theorem bfs_start_equals_end :
  forall (G : graph) (x : Z), bfs_shortest_path G x x = Py.Return (Some [x]).
Proof.
  intros G x. unfold bfs_shortest_path, bfs_shortest_path_fuel.
  now rewrite Z.eqb_refl.
Qed.

(** C2, as stated, fails: with node 5 absent the answer is the very [None]
    given for the two valid nodes 0 and 1 that no path connects. *)
Lemma bfs_absent_node_same_as_no_path :
  has_node two_islands 0 = true /\ has_node two_islands 1 = true /\
  has_node two_islands 5 = false /\
  (forall q, ~ is_path two_islands 0 1 q) /\
  bfs_shortest_path two_islands 0 5 = bfs_shortest_path two_islands 0 1.
Proof.
  repeat split; try reflexivity.
  intros [|u rest]; simpl; [tauto|].
  intros [-> Hp]. destruct rest as [|v rest]; simpl in Hp; [discriminate|].
  destruct Hp as [He _]. destruct (Z.eq_dec v 0) as [->|]; [discriminate|].
  unfold has_edge, get_edge_data in He. simpl in He. discriminate.
Qed.

(** C2, amended. When start and end differ and one of them is not a node of
    the graph, the search answers [None], the answer it also gives when no
    path joins two nodes of the graph. *)
Theorem bfs_absent_node_returns_none :
  forall (G : graph) (s e : Z),
    s <> e ->
    has_node G s = false \/ has_node G e = false ->
    bfs_shortest_path G s e = Py.Return None.
Proof.
  intros G s e Hne Habs. unfold bfs_shortest_path, bfs_shortest_path_fuel.
  apply Z.eqb_neq in Hne. rewrite Hne.
  destruct Habs as [-> | ->]; simpl; auto.
  now rewrite orb_true_r.
Qed.

Lemma bfs_absent_node_returns_none_witness :
  bfs_shortest_path two_islands 0 5 = Py.Return None.
Proof.
  apply (bfs_absent_node_returns_none two_islands 0 5).
  - lia.
  - right. reflexivity.
Defined.

(** ** Graph Builder *)

Lemma get_edge_data_adj G u v : get_edge_data G u v = Dict.get v (adj G u).
Proof. unfold get_edge_data, adj. destruct (Dict.get u G); auto. Qed.

Lemma adj_set G u d n : adj (Dict.set u d G) n = if n =? u then d else adj G n.
Proof. unfold adj. rewrite get_set. simpl. destruct (n =? u); auto. Qed.

Lemma adj_add_node G n m : adj (add_node n G) m = adj G m.
Proof.
  unfold add_node. destruct (Dict.mem n G) eqn:E; auto.
  rewrite adj_set. destruct (Z.eqb_spec m n) as [->|]; auto.
  unfold adj, Dict.mem in *. destruct (Dict.get n G); [discriminate | auto].
Qed.

Lemma has_node_set G u d n : has_node (Dict.set u d G) n = (n =? u) || has_node G n.
Proof. unfold has_node, Dict.mem. rewrite get_set. simpl. destruct (n =? u); auto. Qed.

Lemma has_node_add_node G n m : has_node (add_node n G) m = (m =? n) || has_node G m.
Proof.
  unfold add_node. destruct (Dict.mem n G) eqn:E.
  - destruct (Z.eqb_spec m n) as [->|]; simpl; auto.
  - apply has_node_set.
Qed.

Lemma has_node_add_edge G u v a n :
  has_node (add_edge u v a G) n = (n =? u) || (n =? v) || has_node G n.
Proof.
  unfold add_edge. rewrite !has_node_set, !has_node_add_node.
  destruct (n =? u), (n =? v); auto.
Qed.

Lemma adj_add_edge G u v a n :
  adj (add_edge u v a G) n =
  if n =? v then Dict.set u a (if v =? u then Dict.set v a (adj G u) else adj G v)
  else if n =? u then Dict.set v a (adj G u)
  else adj G n.
Proof.
  unfold add_edge. rewrite !adj_set, !adj_add_node. reflexivity.
Qed.

(** [add_edge] stores the attributes under both directions and touches no
    other pair. *)
Lemma get_edge_data_add_edge G a b attrs u v :
  get_edge_data (add_edge a b attrs G) u v =
  if ((a =? u) && (b =? v)) || ((a =? v) && (b =? u)) then Some attrs
  else get_edge_data G u v.
Proof.
  rewrite !get_edge_data_adj, adj_add_edge.
  repeat (rewrite ?get_set; simpl;
          match goal with
          | |- context [?p =? ?q] =>
              destruct (Z.eqb_spec p q); subst; simpl; try congruence
          end); auto.
Qed.

Lemma NoDup_adj_add_edge G a b attrs :
  (forall n, NoDup (Dict.keys (adj G n))) ->
  forall n, NoDup (Dict.keys (adj (add_edge a b attrs G) n)).
Proof.
  intros Hnd n. rewrite adj_add_edge.
  destruct (n =? b); [|destruct (n =? a)]; auto using NoDup_keys_set.
  destruct (b =? a); auto using NoDup_keys_set.
Qed.

Lemma get_edge_data_add_nodes_from ns G u v :
  get_edge_data (add_nodes_from ns G) u v = get_edge_data G u v.
Proof.
  revert G. induction ns as [|n ns IH]; intros G; simpl; auto.
  unfold add_nodes_from in IH. rewrite IH.
  now rewrite !get_edge_data_adj, adj_add_node.
Qed.

Lemma adj_add_nodes_from ns G n : adj (add_nodes_from ns G) n = adj G n.
Proof.
  revert G. induction ns as [|m ns IH]; intros G; simpl; auto.
  unfold add_nodes_from in IH. now rewrite IH, adj_add_node.
Qed.

Lemma has_node_add_nodes_from ns G n :
  has_node (add_nodes_from ns G) n = memZ n ns || has_node G n.
Proof.
  revert G. induction ns as [|m ns IH]; intros G; simpl; auto.
  unfold add_nodes_from in IH. rewrite IH, has_node_add_node.
  destruct (n =? m), (memZ n ns); auto.
Qed.

Lemma fold_left_flat_map {A B C : Type} (f : A -> C -> A) (g : B -> list C) l a :
  fold_left f (flat_map g l) a = fold_left (fun a b => fold_left f (g b) a) l a.
Proof.
  revert a. induction l as [|b l IH]; intros a; simpl; auto.
  now rewrite fold_left_app, IH.
Qed.

Lemma fold_left_pointwise {A B : Type} (f g : A -> B -> A) l a :
  (forall a b, f a b = g a b) -> fold_left f l a = fold_left g l a.
Proof.
  intros Hfg. revert a. induction l as [|b l IH]; intros a; simpl; auto.
  now rewrite Hfg, IH.
Qed.

Lemma build_network_graph_segments lines index precision :
  build_network_graph lines index precision =
  fold_left (process_segment index precision) (segments lines)
    (add_nodes_from (Dict.values index) Dict.empty).
Proof.
  unfold build_network_graph, segments. rewrite fold_left_flat_map.
  apply fold_left_pointwise. intros G row. unfold process_row.
  generalize (lines_to_process (line_geom row)). intros ls. revert G.
  induction ls as [|l ls IH]; intros G; simpl; auto.
Qed.

Lemma get_edge_data_process_segment index precision G seg u v :
  get_edge_data (process_segment index precision G seg) u v =
  if connects index precision u v seg then Some (attrs_of seg)
  else get_edge_data G u v.
Proof.
  unfold process_segment, process_line, connects, endpoints, attrs_of.
  destruct (Dict.get _ index) as [a|]; auto.
  destruct (Dict.get _ index) as [b|]; auto.
  destruct (a =? b); simpl; auto.
  apply get_edge_data_add_edge.
Qed.

(** The attributes of a pair are those of the last segment connecting it. *)
Lemma get_edge_data_fold index precision segs G u v :
  get_edge_data (fold_left (process_segment index precision) segs G) u v =
  match find (connects index precision u v) (rev segs) with
  | Some seg => Some (attrs_of seg)
  | None => get_edge_data G u v
  end.
Proof.
  revert G. induction segs as [|seg segs IH] using rev_ind; intros G; simpl; auto.
  rewrite fold_left_app, rev_app_distr. simpl.
  rewrite get_edge_data_process_segment.
  destruct (connects index precision u v seg); auto.
Qed.

Lemma get_edge_data_build lines index precision u v :
  get_edge_data (build_network_graph lines index precision) u v =
  option_map attrs_of
    (find (connects index precision u v) (rev (segments lines))).
Proof.
  rewrite build_network_graph_segments, get_edge_data_fold.
  destruct (find _ _); auto.
  now rewrite get_edge_data_add_nodes_from.
Qed.

Lemma connects_sym index precision u v seg :
  connects index precision u v seg = connects index precision v u seg.
Proof.
  unfold connects. destruct (endpoints index precision (fst seg)) as [[a|] [b|]]; auto.
  f_equal. apply orb_comm.
Qed.

Lemma connects_inv index precision u v seg :
  connects index precision u v seg = true ->
  u <> v /\
  (endpoints index precision (fst seg) = (Some u, Some v) \/
   endpoints index precision (fst seg) = (Some v, Some u)).
Proof.
  unfold connects. destruct (endpoints index precision (fst seg)) as [[a|] [b|]];
    try discriminate.
  intros Hc. apply andb_prop in Hc as [Hab Hc].
  apply negb_true_iff, Z.eqb_neq in Hab.
  apply orb_prop in Hc as [Hc|Hc]; apply andb_prop in Hc as [H1 H2];
    apply Z.eqb_eq in H1, H2; subst; split; auto; congruence.
Qed.

Lemma NoDup_adj_fold index precision segs G :
  (forall n, NoDup (Dict.keys (adj G n))) ->
  forall n, NoDup (Dict.keys (adj (fold_left (process_segment index precision) segs G) n)).
Proof.
  revert G. induction segs as [|seg segs IH]; intros G HG; simpl; auto.
  apply IH. unfold process_segment, process_line.
  destruct (Dict.get _ index) as [a|]; auto.
  destruct (Dict.get _ index) as [b|]; auto.
  destruct (negb (a =? b)); auto using NoDup_adj_add_edge.
Qed.

Lemma find_pointwise {A : Type} (f g : A -> bool) l :
  (forall a, f a = g a) -> find f l = find g l.
Proof.
  intros Hfg. induction l as [|a l IH]; simpl; auto.
  now rewrite Hfg, IH.
Qed.

Lemma find_some_rev {A : Type} (f : A -> bool) l a :
  find f (rev l) = Some a -> In a l /\ f a = true.
Proof.
  intros Hf. apply find_some in Hf as [Hin Hfa]. split; auto.
  now apply in_rev.
Qed.

Lemma has_edge_build_origin lines index precision u v :
  has_edge (build_network_graph lines index precision) u v = true ->
  u <> v /\
  exists seg, In seg (segments lines) /\
    (endpoints index precision (fst seg) = (Some u, Some v) \/
     endpoints index precision (fst seg) = (Some v, Some u)).
Proof.
  unfold has_edge. rewrite get_edge_data_build.
  destruct (find _ _) as [seg|] eqn:Hf; simpl; [|discriminate].
  intros _. apply find_some_rev in Hf as [Hin Hc].
  apply connects_inv in Hc as [Hne Hend]. split; auto. now exists seg.
Qed.

(** *** Rows with any geometry *)

Lemma process_lines_outcome_spec index precision d lines : forall G,
  process_lines_outcome index precision d G lines =
  match linestrings_of lines with
  | Some ls => Py.Return (fold_left (process_line index precision d) ls G)
  | None => Py.Raise "IndexError"
  end.
Proof.
  induction lines as [|cs lines IH]; intros G; simpl; auto.
  destruct cs as [|c rest]; simpl; auto.
  rewrite IH. destruct (linestrings_of lines); reflexivity.
Qed.

Lemma process_rows_outcome_spec index precision rows : forall G,
  process_rows_outcome index precision G rows =
  match line_rows_of rows with
  | Some lines => Py.Return (fold_left (process_row index precision) lines G)
  | None => Py.Raise "IndexError"
  end.
Proof.
  induction rows as [|row rows IH]; intros G; simpl; auto.
  rewrite process_lines_outcome_spec. unfold line_row_of.
  destruct (road_geom row) as [cs|geoms|]; simpl.
  - destruct cs as [|c rest]; simpl; auto.
    rewrite IH. destruct (line_rows_of rows); reflexivity.
  - destruct (linestrings_of geoms); simpl; auto.
    rewrite IH. destruct (line_rows_of rows); reflexivity.
  - rewrite IH. destruct (line_rows_of rows); reflexivity.
Qed.

(** The builder raises exactly when a line string it reads is empty, and
    returns the graph of the rows otherwise. *)
Lemma build_network_graph_outcome_spec rows index precision :
  build_network_graph_outcome rows index precision =
  match line_rows_of rows with
  | Some lines => Py.Return (build_network_graph lines index precision)
  | None => Py.Raise "IndexError"
  end.
Proof. apply process_rows_outcome_spec. Qed.

Lemma linestrings_of_coords geoms ls :
  linestrings_of geoms = Some ls -> map coords_of ls = geoms.
Proof.
  revert ls. induction geoms as [|cs geoms IH]; intros ls; simpl.
  - now intros [= <-].
  - destruct cs as [|c rest]; simpl; [discriminate|].
    destruct (linestrings_of geoms) as [ls'|]; [|discriminate].
    intros [= <-]. simpl. unfold coords_of at 1. simpl. now rewrite (IH ls').
Qed.

Lemma line_rows_of_segments rows lines :
  line_rows_of rows = Some lines ->
  map (fun seg => coords_of (fst seg)) (segments lines) = road_segments rows.
Proof.
  revert lines. induction rows as [|row rows IH]; intros lines; simpl.
  - now intros [= <-].
  - destruct (line_row_of row) as [r|] eqn:Hr; [|discriminate].
    destruct (line_rows_of rows) as [rs|]; [|discriminate].
    intros [= <-]. unfold segments, road_segments in *. simpl.
    rewrite map_app, (IH rs eq_refl), map_map. simpl. f_equal.
    unfold line_row_of in Hr.
    destruct (road_geom row) as [cs|geoms|]; simpl in *.
    + destruct cs as [|c rest]; simpl in Hr; [discriminate|].
      now injection Hr as <-.
    + destruct (linestrings_of geoms) as [ls|] eqn:Hls; simpl in Hr; [|discriminate].
      injection Hr as <-. simpl. now apply linestrings_of_coords.
    + now injection Hr as <-.
Qed.

Lemma linestrings_of_Some geoms :
  Forall (fun cs => cs <> []) geoms <-> exists ls, linestrings_of geoms = Some ls.
Proof.
  induction geoms as [|cs geoms IH]; simpl.
  - split; eauto.
  - split.
    + intros Hall. inversion Hall as [|? ? Hcs Hrest]; subst.
      apply IH in Hrest as [ls ->].
      destruct cs as [|c rest]; [congruence|]. simpl. eauto.
    + intros [ls Hls]. destruct cs as [|c rest]; [discriminate|].
      simpl in Hls. destruct (linestrings_of geoms) as [ls'|]; [|discriminate].
      constructor; [discriminate|]. apply IH. eauto.
Qed.

Lemma line_rows_of_Some rows :
  Forall (fun cs => cs <> []) (road_segments rows) <->
  exists lines, line_rows_of rows = Some lines.
Proof.
  induction rows as [|row rows IH]; simpl.
  - split; eauto.
  - unfold road_segments in *. simpl. rewrite Forall_app, IH.
    unfold line_row_of.
    destruct (road_geom row) as [cs|geoms|]; simpl.
    + destruct cs as [|c rest]; simpl.
      * split; [intros [Hcs _]; inversion Hcs; congruence | intros [? [=]]].
      * split.
        -- intros [_ [lines ->]]. eauto.
        -- intros [lines Hl]. split; [repeat constructor; discriminate|].
           destruct (line_rows_of rows); [eauto | discriminate].
    + rewrite linestrings_of_Some.
      destruct (linestrings_of geoms) as [ls|]; simpl.
      * split.
        -- intros [_ [lines ->]]. eauto.
        -- intros [lines Hl]. split; [eauto|].
           destruct (line_rows_of rows); [eauto | discriminate].
      * split; [intros [[? [=]] _] | intros [? [=]]].
    + split.
      * intros [_ [lines ->]]. eauto.
      * intros [lines Hl]. split; [constructor|].
        destruct (line_rows_of rows); [eauto | discriminate].
Qed.

(** C6 fails on an empty line string: [coords[0]] raises IndexError, and no
    graph is returned. *)
Lemma build_network_graph_empty_line_raises :
  build_network_graph_outcome (sample_road_rows ++ [empty_line_row]) sample_index 6 =
  Py.Raise "IndexError".
Proof. reflexivity. Qed.

(** C6, amended. When every line string that is read has coordinates the
    builder returns a graph; an empty one makes it raise IndexError. A graph
    that is returned has no edge from a node to itself, and every edge of it
    comes from a line string of the rows whose two ends resolve, to two
    different nodes. A line string with an end that does not resolve, or
    with both ends on one node, raises nothing and leaves the graph as it
    is. *)
Theorem build_network_graph_no_loop_no_dangling :
  forall (road_lines_gdf : list road_row) (index : Dict.t string Z) (precision : nat),
    let outcome := build_network_graph_outcome road_lines_gdf index precision in
    (Forall (fun cs => cs <> []) (road_segments road_lines_gdf) ->
     exists G, outcome = Py.Return G) /\
    (~ Forall (fun cs => cs <> []) (road_segments road_lines_gdf) ->
     outcome = Py.Raise "IndexError") /\
    (forall G, outcome = Py.Return G ->
       (forall u, has_edge G u u = false) /\
       (forall u v, has_edge G u v = true ->
          u <> v /\
          exists single_line,
            In (coords_of single_line) (road_segments road_lines_gdf) /\
            (endpoints index precision single_line = (Some u, Some v) \/
             endpoints index precision single_line = (Some v, Some u)))) /\
    (forall G' line_description single_line,
       match endpoints index precision single_line with
       | (Some a, Some b) => a = b
       | _ => True
       end ->
       process_line_outcome index precision line_description G'
         (coords_of single_line) = Py.Return G').
Proof.
  intros rows index precision outcome. unfold outcome.
  rewrite build_network_graph_outcome_spec.
  pose proof (line_rows_of_Some rows) as Hsome.
  pose proof (line_rows_of_segments rows) as Hsegs.
  destruct (line_rows_of rows) as [lines|].
  - specialize (Hsegs lines eq_refl).
    assert (Hedge : forall u v,
              has_edge (build_network_graph lines index precision) u v = true ->
              u <> v /\
              exists single_line,
                In (coords_of single_line) (road_segments rows) /\
                (endpoints index precision single_line = (Some u, Some v) \/
                 endpoints index precision single_line = (Some v, Some u))).
    { intros u v He. apply has_edge_build_origin in He as [Hne (seg & Hin & Hend)].
      split; auto. exists (fst seg). split; auto.
      rewrite <- Hsegs. now apply (in_map (fun seg => coords_of (fst seg))). }
    split; [eauto|]. split; [|split].
    + intros Hn. exfalso. apply Hn, Hsome. eauto.
    + intros G [= <-]. split; auto.
      intros u. destruct (has_edge _ u u) eqn:E; auto.
      apply Hedge in E as [Hne _]. congruence.
    + intros G' d l. unfold process_line_outcome, coords_of.
      destruct l as [c rest]. simpl. intros Hend. f_equal.
      unfold process_line, endpoints in *. simpl in *.
      destruct (Dict.get _ index) as [a|]; auto.
      destruct (Dict.get _ index) as [b|]; auto.
      subst. now rewrite Z.eqb_refl.
  - split; [|split; [|split]].
    + intros Hall. apply Hsome in Hall as [lines [=]].
    + reflexivity.
    + intros G [=].
    + intros G' d l. unfold process_line_outcome, coords_of.
      destruct l as [c rest]. simpl. intros Hend. f_equal.
      unfold process_line, endpoints in *. simpl in *.
      destruct (Dict.get _ index) as [a|]; auto.
      destruct (Dict.get _ index) as [b|]; auto.
      subst. now rewrite Z.eqb_refl.
Qed.

Lemma build_network_graph_no_loop_no_dangling_witness :
  (exists G, build_network_graph_outcome sample_road_rows sample_index 6 = Py.Return G) /\
  process_line_outcome sample_index 6 (Py.Str "x") two_islands (coords_of (road 1 2)) =
    Py.Return two_islands /\
  process_line_outcome sample_index 6 (Py.Str "x") two_islands (coords_of (road 0 0)) =
    Py.Return two_islands /\
  (forall u, has_edge (build_network_graph sample_roads sample_index 6) u u = false).
Proof.
  pose proof (build_network_graph_no_loop_no_dangling sample_road_rows sample_index 6)
    as [Hret [_ [Hgraph Hdrop]]].
  split; [|split; [|split]].
  - apply Hret. unfold road_segments. simpl. repeat constructor; discriminate.
  - apply Hdrop. simpl. auto.
  - apply Hdrop. simpl. auto.
  - apply (Hgraph (build_network_graph sample_roads sample_index 6)). reflexivity.
Defined.

(** C7. Whatever the rows, the attributes stored for a pair of nodes are
    those of the last segment, in processing order, that connects the pair;
    both directions of the pair read the same attributes, and a node lists
    each of its neighbours once: one edge per pair. *)
Theorem build_network_graph_last_write_wins :
  forall (road_lines_gdf : list line_row) (index : Dict.t string Z) (precision : nat),
    let G := build_network_graph road_lines_gdf index precision in
    (forall u v,
       get_edge_data G u v =
       option_map attrs_of
         (find (connects index precision u v) (rev (segments road_lines_gdf)))) /\
    symmetric G /\
    (forall u, NoDup (Dict.keys (adj G u))).
Proof.
  intros lines index precision G. split; [|split].
  - intros u v. apply get_edge_data_build.
  - intros u v. unfold G. rewrite !get_edge_data_build.
    f_equal. apply find_pointwise. intros seg. apply connects_sym.
  - unfold G. rewrite build_network_graph_segments. apply NoDup_adj_fold.
    intros n. rewrite adj_add_nodes_from. constructor.
Qed.

(** Two segments on the pair 0-1: the later description is the one kept. *)
Example last_write_wins_sample :
  option_map description
    (get_edge_data (build_network_graph sample_roads sample_index 6) 0 1)
  = Some "Path2" /\
  neighbors (build_network_graph sample_roads sample_index 6) 0 = Some [1].
Proof. split; reflexivity. Qed.

(** ** Node Index Builder *)

Lemma In_ids_upto z n : In z (ids_upto n) <-> 0 <= z < Z.of_nat n.
Proof.
  unfold ids_upto. rewrite in_map_iff. split.
  - intros (i & <- & Hi). apply in_seq in Hi. lia.
  - intros Hz. exists (Z.to_nat z). split; [lia|]. apply in_seq. lia.
Qed.

Lemma ids_upto_S n : ids_upto (S n) = ids_upto n ++ [Z.of_nat n].
Proof. unfold ids_upto. now rewrite seq_S, map_app. Qed.

Lemma NoDup_ids_upto n : NoDup (ids_upto n).
Proof.
  induction n as [|n IH]; [constructor|].
  rewrite ids_upto_S. apply NoDup_app; auto.
  - repeat constructor. simpl. tauto.
  - intros z Hz [<-|[]]. apply In_ids_upto in Hz. lia.
Qed.

Lemma find_app {A : Type} (f : A -> bool) l l' :
  find f (l ++ l') = match find f l with Some a => Some a | None => find f l' end.
Proof.
  induction l as [|a l IH]; simpl; auto. destruct (f a); auto.
Qed.

Lemma first_with_key_None precision k rows :
  first_with_key precision k rows = None <-> ~ In k (map (row_key precision) rows).
Proof.
  unfold first_with_key. induction rows as [|r rows IH]; simpl; [tauto|].
  destruct (String.eqb_spec (row_key precision r) k) as [Heq|Hne].
  - split; [discriminate | tauto].
  - rewrite IH. tauto.
Qed.

Lemma mem_get_false {K V : Type} `{EqDec K} (k : K) (d : Dict.t K V) :
  Dict.mem k d = false -> Dict.get k d = None.
Proof. unfold Dict.mem. destruct (Dict.get k d); [discriminate | auto]. Qed.

Lemma get_Some_values {K V : Type} `{EqDec K} (k : K) (v : V) (d : Dict.t K V) :
  Dict.get k d = Some v -> In v (Dict.values d).
Proof.
  intros Hg. apply get_Some_In in Hg. change v with (snd (k, v)). now apply in_map.
Qed.

(** A row whose key is in the index changes nothing. *)
Lemma index_step_seen name_col id_col precision st row :
  Dict.mem (row_key precision row) (node_coords_to_networkx_id st) = true ->
  index_step name_col id_col precision st row = st.
Proof.
  unfold index_step, row_key. now intros ->.
Qed.

Lemma index_step_inv name_col id_col precision seen st row :
  index_inv name_col id_col precision seen st ->
  index_inv name_col id_col precision (seen ++ [row])
            (index_step name_col id_col precision st row).
Proof.
  intros [Hval Hcur Hdk Hnd Hdom Hfirst].
  destruct (Dict.mem (row_key precision row) (node_coords_to_networkx_id st)) eqn:Hmem.
  - rewrite index_step_seen by auto. constructor; auto.
    + intros k. rewrite Hdom, map_app, in_app_iff. simpl.
      split; [tauto|]. intros [Hk|[<-|[]]]; auto. now apply Hdom.
    + intros k i Hg. destruct (Hfirst k i Hg) as (r & Hr & Hd).
      exists r. split; auto. unfold first_with_key in *. now rewrite find_app, Hr.
  - unfold index_step. fold (row_key precision row). rewrite Hmem. simpl.
    set (key := row_key precision row) in *.
    set (cur := current_networkx_id st) in *.
    set (n := List.length (node_coords_to_networkx_id st)) in *.
    pose proof (mem_get_false _ _ Hmem) as Hget.
    assert (Hcur_new : Dict.get cur (networkx_id_to_details st) = None).
    { apply get_None_keys. rewrite Hdk, Hval, In_ids_upto. fold n. lia. }
    constructor; simpl.
    + rewrite (set_absent _ _ _ Hget). unfold Dict.values in *.
      rewrite map_app, length_app, Hval. simpl. fold n.
      replace (n + 1)%nat with (S n) by lia. now rewrite ids_upto_S, Hcur.
    + rewrite (set_absent _ _ _ Hget), length_app. simpl. fold n. lia.
    + rewrite (set_absent _ _ _ Hget), (set_absent _ _ _ Hcur_new).
      unfold Dict.keys, Dict.values in *. rewrite !map_app, Hdk. reflexivity.
    + now apply NoDup_keys_set.
    + intros k. unfold Dict.mem. rewrite get_set, map_app, in_app_iff. simpl.
      destruct (String.eqb_spec k key) as [->|Hne].
      * tauto.
      * fold (Dict.mem k (node_coords_to_networkx_id st)). rewrite Hdom.
        split; [tauto|]. intros [Hk|[Hk|[]]]; auto. now elim Hne.
    + intros k i. rewrite get_set. simpl.
      destruct (String.eqb_spec k key) as [->|Hne].
      * intros [= <-]. exists row. split.
        -- unfold first_with_key. rewrite find_app.
           assert (Hnone : first_with_key precision key seen = None).
           { apply first_with_key_None. rewrite <- Hdom. congruence. }
           unfold first_with_key in Hnone. rewrite Hnone. simpl.
           fold (row_key precision row). fold key. now rewrite String.eqb_refl.
        -- now rewrite get_set_eq.
      * intros Hg. destruct (Hfirst k i Hg) as (r & Hr & Hd).
        exists r. split.
        -- unfold first_with_key in *. now rewrite find_app, Hr.
        -- rewrite get_set_ne; auto.
           apply get_Some_values in Hg. rewrite Hval in Hg.
           apply In_ids_upto in Hg. fold n in Hg. lia.
Qed.

Lemma index_loop_inv name_col id_col precision rows seen st :
  index_inv name_col id_col precision seen st ->
  index_inv name_col id_col precision (seen ++ rows)
            (index_loop name_col id_col precision rows st).
Proof.
  revert seen st. induction rows as [|row rows IH]; intros seen st Hinv; simpl.
  - now rewrite app_nil_r.
  - replace (seen ++ row :: rows) with ((seen ++ [row]) ++ rows)
      by now rewrite <- app_assoc.
    apply IH. now apply index_step_inv.
Qed.

Lemma index_init_inv name_col id_col precision :
  index_inv name_col id_col precision [] index_init.
Proof.
  constructor; simpl; auto.
  - constructor.
  - intros k. split; [discriminate | tauto].
  - discriminate.
Qed.

Lemma prepare_graph_nodes_loop ints blds name_col id_col precision :
  prepare_graph_nodes ints blds name_col id_col precision =
  let st := index_loop name_col id_col precision
              (drop_duplicates (ints ++ blds)) index_init in
  (node_coords_to_networkx_id st, networkx_id_to_details st).
Proof.
  unfold prepare_graph_nodes. destruct (drop_duplicates (ints ++ blds)); reflexivity.
Qed.

Lemma prepare_graph_nodes_inv ints blds name_col id_col precision :
  index_inv name_col id_col precision (drop_duplicates (ints ++ blds))
    (index_loop name_col id_col precision (drop_duplicates (ints ++ blds)) index_init).
Proof.
  apply (index_loop_inv name_col id_col precision _ [] index_init).
  apply index_init_inv.
Qed.


(** The first row of a layer is never dropped. *)
Lemma drop_duplicates_cons r rows :
  drop_duplicates (r :: rows) = r :: drop_duplicates_from [row_geometry r] rows.
Proof. reflexivity. Qed.

(** The rows that are kept are rows of the layer. *)
Lemma drop_duplicates_from_incl seen rows r :
  In r (drop_duplicates_from seen rows) -> In r rows.
Proof.
  revert seen. induction rows as [|r0 rows IH]; intros seen; simpl; auto.
  destruct (existsb _ seen); simpl; [eauto|].
  intros [->|Hin]; eauto.
Qed.




(** On the sample layer the third row falls on the key of the first one, and
    the node keeps the first row's name and unique id. *)
Example first_seen_wins_sample :
  let index := prepare_graph_nodes sample_points [] "Name" "id" 6 in
  Dict.get (row_key 6 side_gate_row) (fst index) = Some 0 /\
  option_map name (Dict.get 0 (snd index)) = Some "Main Gate" /\
  option_map qgis_id (Dict.get 0 (snd index)) = Some "17".
Proof. repeat split. Qed.

(** In a frame whose id column is float64 the id 17 is stored as "17.0",
    and the NaN of a row without an id gives way to the placeholder. *)
Example float_id_sample :
  let index := prepare_graph_nodes float_id_points [] "Name" "id" 6 in
  option_map qgis_id (Dict.get 0 (snd index)) = Some "17.0" /\
  option_map qgis_id (Dict.get 1 (snd index)) = Some "QGIS_ID_NX_1".
Proof. vm_compute. split; reflexivity. Qed.






(** C5, the part the code keeps: a missing name or unique id is replaced by
    the placeholder built from the id of the new node. *)
Lemma missing_columns_get_placeholders name_col id_col i row :
  row_get name_col (row_columns row) = Py.NA ->
  row_get id_col (row_columns row) = Py.NA ->
  name (details_of name_col id_col i row) =
    ("Unnamed_Node_NX_" ++ Py.str_of_int i)%string /\
  qgis_id (details_of name_col id_col i row) =
    ("QGIS_ID_NX_" ++ Py.str_of_int i)%string.
Proof.
  intros Hn Hi. unfold details_of, qgis_name_of, qgis_unique_id_of. simpl.
  now rewrite Hn, Hi.
Qed.

(** C5 fails on blank text: a row whose name is three spaces and whose unique
    id is the empty string becomes node 0 with an empty name and an empty
    unique id, not with "Unnamed_Node_NX_0" and "QGIS_ID_NX_0". *)
Theorem blank_columns_stored_empty :
  prepare_graph_nodes [blank_row] [] "Name" "id" 6 =
  ([("2.000000,0.000000", 0)],
   [(0, {| geometry := row_geometry blank_row; name := ""; qgis_id := "" |})]).
Proof. reflexivity. Qed.

(** ** Coordinate Key Encoder *)

Lemma round_half_even_nonneg num den : 0 <= num -> 0 < den -> 0 <= round_half_even num den.
Proof.
  intros Hn Hd. unfold round_half_even.
  assert (0 <= num / den) by (apply Z.div_pos; lia).
  destruct (2 * (num mod den) ?= den); [destruct (Z.even (num / den))| |]; lia.
Qed.

Lemma scaled_nonneg p m e : 0 <= scaled p m e.
Proof.
  unfold scaled. destruct (Z.leb_spec 0 e).
  - assert (0 <= 2 ^ e) by (apply Z.pow_nonneg; lia).
    assert (0 <= 10 ^ Z.of_nat p) by (apply Z.pow_nonneg; lia).
    apply Z.mul_nonneg_nonneg; [apply Z.mul_nonneg_nonneg|]; lia.
  - apply round_half_even_nonneg.
    + assert (0 <= 10 ^ Z.of_nat p) by (apply Z.pow_nonneg; lia).
      apply Z.mul_nonneg_nonneg; lia.
    + apply Z.pow_pos_nonneg; lia.
Qed.

(** Equal rounded values print alike, once the sign of a zero is settled. *)
Lemma format_f_round_equal p u v :
  rounded_eqb (spec_round p u) (spec_round p v) = true ->
  same_sign_at_zero p u v ->
  format_f p u = format_f p v.
Proof.
  unfold same_sign_at_zero.
  destruct u as [s| s | | s m e], v as [s'| s' | | s' m' e'];
    cbn [spec_round rounded_eqb format_f signbit]; try discriminate.
  - intros _ Hs. now rewrite (Hs eq_refl).
  - intros Hz Hs. apply Z.eqb_eq in Hz. rewrite (Hs eq_refl).
    pose proof (scaled_nonneg p m' e').
    destruct s'; now replace (scaled p m' e') with 0 by lia.
  - intros Hs _. apply eqb_prop in Hs. now subst.
  - intros Hz Hs. apply Z.eqb_eq in Hz.
    pose proof (scaled_nonneg p m e).
    assert (Hsc : scaled p m e = 0) by (destruct s; lia).
    rewrite Hsc in *. rewrite Hs; auto. now destruct s.
  - intros Hz Hs. apply Z.eqb_eq in Hz.
    pose proof (scaled_nonneg p m e). pose proof (scaled_nonneg p m' e').
    destruct s, s'; try (now replace (scaled p m' e') with (scaled p m e) by lia).
    + assert (Hsc : scaled p m e = 0) by lia. rewrite Hsc in Hs.
      discriminate (Hs eq_refl).
    + assert (Hsc : scaled p m e = 0) by lia. rewrite Hsc in Hs.
      discriminate (Hs eq_refl).
Qed.

Lemma string_forall_app f a b :
  string_forall f (a ++ b) = string_forall f a && string_forall f b.
Proof.
  induction a as [|c a IH]; simpl; auto. now rewrite IH, andb_assoc.
Qed.

Lemma string_forall_substring f s : 
  string_forall f s = true -> forall n m, string_forall f (substring n m s) = true.
Proof.
  induction s as [|c s IH]; intros Hs n m; simpl in *.
  - now destruct n, m.
  - apply andb_prop in Hs as [Hc Hs].
    destruct n as [|n]; [destruct m as [|m]|]; simpl; auto.
    now rewrite Hc, IH.
Qed.

Lemma string_forall_weaken (f g : ascii -> bool) s :
  (forall c, f c = true -> g c = true) ->
  string_forall f s = true -> string_forall g s = true.
Proof.
  intros Hfg. induction s as [|c s IH]; simpl; auto.
  intros Hs. apply andb_prop in Hs as [Hc Hs]. now rewrite (Hfg c Hc), IH.
Qed.

Lemma string_forall_zeros k : string_forall is_digit (zeros k) = true.
Proof. induction k; simpl; auto. Qed.

Lemma string_forall_of_uint u :
  string_forall is_digit (NilEmpty.string_of_uint u) = true.
Proof. induction u; simpl; auto. Qed.

Lemma string_forall_digits n : string_forall is_digit (digits n) = true.
Proof.
  unfold digits, NilZero.string_of_uint.
  destruct (N.to_uint (Z.to_N n)); try apply string_forall_of_uint. reflexivity.
Qed.

Lemma string_forall_fixed p n : string_forall fixed_point_char (fixed p n) = true.
Proof.
  assert (Hds : string_forall fixed_point_char
                  (zeros (S p - String.length (digits n)) ++ digits n) = true).
  { apply (string_forall_weaken is_digit).
    - intros c Hc. unfold fixed_point_char. now rewrite Hc.
    - now rewrite string_forall_app, string_forall_zeros, string_forall_digits. }
  unfold fixed. destruct p; auto.
  rewrite !string_forall_app, !string_forall_substring; auto.
Qed.

Lemma string_forall_format_f p v : string_forall fixed_point_char (format_f p v) = true.
Proof.
  destruct v as [s|s| |s m e]; simpl; auto.
  - rewrite string_forall_app, string_forall_fixed. now destruct s.
  - now destruct s.
  - rewrite string_forall_app, string_forall_fixed. now destruct s.
Qed.

(** C9, as stated, fails next to zero: rounded to 6 decimals, [- 2^-30] and
    0.0 are the same number, zero, and yet the key of the first starts with a
    minus sign and the key of the second does not. *)
Lemma coords_key_negative_zero :
  let a := west_of_origin in
  let b := pt 0 in
  rounded_eqb (spec_round 6 (x a)) (spec_round 6 (x b)) = true /\
  rounded_eqb (spec_round 6 (y a)) (spec_round 6 (y b)) = true /\
  coords_key 6 a = "-0.000000,0.000000" /\
  coords_key 6 b = "0.000000,0.000000" /\
  coords_key 6 a <> coords_key 6 b.
Proof. repeat split. discriminate. Qed.

(** C9, amended. If the two x and the two y are equal once rounded to [p]
    decimals, and coordinates that round to zero agree in sign, the keys are
    the same string; and a key is written with digits, sign, point and comma
    ("inf" and "nan" for the non-finite floats), never with an exponent. *)
Theorem coords_key_round_equal :
  forall (p : nat) (a b : point),
    (rounded_eqb (spec_round p (x a)) (spec_round p (x b)) = true ->
     rounded_eqb (spec_round p (y a)) (spec_round p (y b)) = true ->
     same_sign_at_zero p (x a) (x b) ->
     same_sign_at_zero p (y a) (y b) ->
     coords_key p a = coords_key p b) /\
    string_forall fixed_point_char (coords_key p a) = true.
Proof.
  intros p a b. split.
  - intros Hx Hy Hsx Hsy. unfold coords_key.
    now rewrite (format_f_round_equal p _ _ Hx Hsx), (format_f_round_equal p _ _ Hy Hsy).
  - unfold coords_key. rewrite !string_forall_app, !string_forall_format_f. reflexivity.
Qed.

Lemma coords_key_round_equal_witness :
  coords_key 6 (row_geometry side_gate_row) = coords_key 6 (pt 0).
Proof.
  apply (coords_key_round_equal 6 (row_geometry side_gate_row) (pt 0)).
  - reflexivity.
  - reflexivity.
  - intros _. reflexivity.
  - intros _. reflexivity.
Defined.

(** ** Pathfinder: the search *)

Lemma memZ_In x l : memZ x l = true <-> In x l.
Proof.
  unfold memZ. rewrite existsb_exists. split.
  - intros (y & Hy & Heq). apply Z.eqb_eq in Heq. now subst.
  - intros Hx. exists x. split; auto. apply Z.eqb_refl.
Qed.

Lemma memZ_false x l : memZ x l = false <-> ~ In x l.
Proof.
  rewrite <- memZ_In. destruct (memZ x l); split; congruence.
Qed.

Lemma neighbors_has_edge G u nbrs w :
  neighbors G u = Some nbrs -> (In w nbrs <-> has_edge G u w = true).
Proof.
  unfold neighbors, has_edge, get_edge_data.
  destruct (Dict.get u G) as [d|]; simpl; [|discriminate].
  intros [= <-]. rewrite <- mem_keys. unfold Dict.mem. reflexivity.
Qed.

Lemma has_node_neighbors G u :
  has_node G u = true -> exists nbrs, neighbors G u = Some nbrs.
Proof.
  unfold has_node, Dict.mem, neighbors.
  destruct (Dict.get u G) as [d|]; [|discriminate]. intros _. now exists (Dict.keys d).
Qed.

Lemma well_formedb_sound G : well_formedb G = true -> well_formed G.
Proof.
  unfold well_formedb, well_formed, neighbors. intros Hwf u nbrs v Hn Hv.
  destruct (Dict.get u G) as [d|] eqn:Hg; [|discriminate].
  injection Hn as <-. apply get_Some_In in Hg.
  rewrite forallb_forall in Hwf. specialize (Hwf _ Hg). simpl in Hwf.
  rewrite forallb_forall in Hwf. auto.
Qed.

(** *** Paths *)

Lemma is_path_from_snoc G a rest u w :
  is_path_from G a rest u -> has_edge G u w = true ->
  is_path_from G a (rest ++ [w]) w.
Proof.
  revert a. induction rest as [|v rest IH]; intros a; simpl.
  - intros -> He. auto.
  - intros [He Hp] Hw. split; auto.
Qed.

Lemma is_path_snoc G s u w p :
  is_path G s u p -> has_edge G u w = true -> is_path G s w (p ++ [w]).
Proof.
  destruct p as [|a rest]; simpl; [tauto|].
  intros [-> Hp] Hw. split; auto. eapply is_path_from_snoc; eauto.
Qed.

Lemma shortest_path_start G s : shortest_path G s s [s].
Proof.
  split; simpl; auto.
  intros [|a q]; simpl; [tauto | lia].
Qed.

(** A path that starts inside a set of nodes and ends outside of it has an
    edge leaving the set, and is longer than its part before this edge. *)
Lemma path_crosses G (V : list Z) rest : forall u e,
  is_path_from G u rest e -> In u V -> ~ In e V ->
  exists r1 a b,
    is_path_from G u r1 a /\ In a V /\ ~ In b V /\ has_edge G a b = true /\
    (List.length r1 < List.length rest)%nat.
Proof.
  induction rest as [|v rest IH]; intros u e; simpl.
  - intros -> Hu He. tauto.
  - intros [Hedge Hp] Hu He.
    destruct (in_dec Z.eq_dec v V) as [Hv|Hv].
    + destruct (IH v e Hp Hv He) as (r1 & a & b & Hr1 & Ha & Hb & Hab & Hlen).
      exists (v :: r1), a, b. simpl. repeat split; auto. lia.
    + exists [], u, v. simpl. repeat split; auto. lia.
Qed.

(** *** The loop over the neighbours *)

Lemma filter_length_le {A : Type} (f g : A -> bool) l :
  (forall a, f a = true -> g a = true) ->
  (List.length (filter f l) <= List.length (filter g l))%nat.
Proof.
  intros Hfg. induction l as [|a l IH]; simpl; auto.
  destruct (f a) eqn:Hf.
  - rewrite (Hfg a Hf). simpl. lia.
  - destruct (g a); simpl; lia.
Qed.

Lemma filter_length_le_all {A : Type} (f : A -> bool) l :
  (List.length (filter f l) <= List.length l)%nat.
Proof.
  induction l as [|a l IH]; simpl; auto. destruct (f a); simpl; lia.
Qed.

Lemma filter_length_lt {A : Type} (f g : A -> bool) l x :
  (forall a, f a = true -> g a = true) ->
  In x l -> f x = false -> g x = true ->
  (List.length (filter f l) < List.length (filter g l))%nat.
Proof.
  intros Hfg Hin Hfx Hgx. induction l as [|a l IH]; simpl; [destruct Hin|].
  destruct Hin as [->|Hin].
  - rewrite Hfx, Hgx. simpl. pose proof (filter_length_le f g l Hfg). lia.
  - specialize (IH Hin). destruct (f a) eqn:Hf.
    + rewrite (Hfg a Hf). simpl. lia.
    + destruct (g a); simpl; lia.
Qed.

Lemma unvisited_mark G n visited :
  has_node G n = true -> ~ In n visited ->
  (unvisited G (n :: visited) < unvisited G visited)%nat.
Proof.
  unfold unvisited, has_node. rewrite mem_keys. intros Hn Hv.
  apply (filter_length_lt _ _ _ n); auto.
  - intros a. unfold memZ. simpl. destruct (a =? n); simpl; auto. discriminate.
  - unfold memZ. simpl. now rewrite Z.eqb_refl.
  - apply memZ_false in Hv. now rewrite Hv.
Qed.

Lemma visit_neighbors_spec G path nbrs : forall visited queue,
  (forall w, In w nbrs -> has_node G w = true) ->
  exists new,
    visit_neighbors path nbrs visited queue =
      (rev new ++ visited, queue ++ map (fun w => (w, path ++ [w])) new) /\
    (forall w, In w new -> In w nbrs /\ ~ In w visited) /\
    (forall w, In w nbrs -> In w new \/ In w visited) /\
    (List.length new + unvisited G (rev new ++ visited) <= unvisited G visited)%nat.
Proof.
  induction nbrs as [|n nbrs IH]; intros visited queue Hnodes; simpl.
  - exists []. simpl. rewrite app_nil_r. repeat split; auto; tauto.
  - destruct (memZ n visited) eqn:Hmem; simpl.
    + apply memZ_In in Hmem.
      destruct (IH visited queue) as (new & Heq & Hnew & Hcov & Hlen).
      { intros w Hw. apply Hnodes. now right. }
      exists new. repeat split; auto.
      * right. now apply Hnew.
      * now apply Hnew.
      * intros w [<-|Hw]; auto.
    + apply memZ_false in Hmem.
      destruct (IH (n :: visited) (queue ++ [(n, path ++ [n])]))
        as (new & Heq & Hnew & Hcov & Hlen).
      { intros w Hw. apply Hnodes. now right. }
      exists (n :: new). split; [|split; [|split]].
      * rewrite Heq. simpl. now rewrite <- !app_assoc.
      * intros w [<-|Hw]; split; auto.
        -- right. now apply Hnew.
        -- intros Hv. apply (proj2 (Hnew w Hw)). now right.
      * intros w [<-|Hw]; [left; now left|].
        destruct (Hcov w Hw) as [Hc|[<-|Hc]]; auto.
        -- left. now right.
        -- left. now left.
      * pose proof (unvisited_mark G n visited (Hnodes n (or_introl eq_refl)) Hmem).
        simpl. rewrite <- app_assoc. simpl. lia.
Qed.

(** *** The loop over the queue *)

Lemma levels_head u p rest :
  (exists d A B, (u, p) :: rest = A ++ B /\
                 Forall (level_is d) A /\ Forall (level_is (S d)) B) ->
  exists A B, rest = A ++ B /\
              Forall (level_is (List.length p)) A /\
              Forall (level_is (S (List.length p))) B.
Proof.
  intros (d & A & B & Heq & HA & HB). destruct A as [|a A]; simpl in Heq.
  - subst B. inversion HB as [|? ? Hl HB']; subst. unfold level_is in Hl. simpl in Hl.
    exists rest, []. rewrite app_nil_r, Hl. auto.
  - injection Heq as <- ->. inversion HA as [|? ? Hl HA']; subst.
    unfold level_is in Hl. simpl in Hl. subst d. now exists A, B.
Qed.

Lemma levels_lower_bound A B d (entry : Z * list Z) :
  Forall (level_is d) A -> Forall (level_is (S d)) B -> In entry (A ++ B) ->
  (d <= List.length (snd entry))%nat.
Proof.
  intros HA HB Hin. rewrite Forall_forall in HA, HB.
  apply in_app_or in Hin as [Hin|Hin]; [apply HA in Hin | apply HB in Hin];
    unfold level_is in Hin; lia.
Qed.

(** The path recorded for a node met for the first time is a shortest one:
    a shorter path would leave the visited set through a node still in the
    queue, at the level of the current node or the next. *)
Lemma new_entry_shortest G s e u p rest visited w :
  bfs_inv G s e ((u, p) :: rest) visited ->
  has_edge G u w = true -> ~ In w visited ->
  shortest_path G s w (p ++ [w]).
Proof.
  intros [Hpaths Hlevels Hvis _ Hstart] Hedge Hw.
  destruct (Hpaths u p (or_introl eq_refl)) as [[Hp Hmin] Hu].
  split; [eapply is_path_snoc; eauto|].
  intros q Hq. rewrite length_app. simpl.
  destruct q as [|a qrest]; simpl in Hq; [tauto|]. destruct Hq as [-> Hq].
  destruct (path_crosses G visited qrest s w Hq Hstart Hw)
    as (r1 & a & b & Hr1 & Ha & Hb & Hab & Hlen).
  destruct (Hvis a Ha) as [[pa Hin]|[_ Hdone]]; [|now apply Hdone in Hab].
  destruct (Hpaths a pa Hin) as [[_ Hamin] _].
  specialize (Hamin (s :: r1)). simpl in Hamin. specialize (Hamin (conj eq_refl Hr1)).
  destruct (levels_head u p rest Hlevels) as (A & B & -> & HA & HB). simpl.
  destruct Hin as [Hin|Hin].
  - injection Hin as -> ->. lia.
  - pose proof (levels_lower_bound A B _ (a, pa) HA HB Hin) as Hlow.
    simpl in Hlow. lia.
Qed.

Lemma bfs_step_inv G s e u p rest visited nbrs new :
  well_formed G ->
  bfs_inv G s e ((u, p) :: rest) visited ->
  u <> e ->
  neighbors G u = Some nbrs ->
  (forall w, In w new -> In w nbrs /\ ~ In w visited) ->
  (forall w, In w nbrs -> In w new \/ In w visited) ->
  bfs_inv G s e (rest ++ map (fun w => (w, p ++ [w])) new) (rev new ++ visited).
Proof.
  intros Hwf Hinv Hne Hn Hnew Hcov.
  pose proof Hinv as [Hpaths Hlevels Hvis Hnodes Hstart].
  assert (Hmark : forall v, In v (rev new ++ visited) <-> In v new \/ In v visited).
  { intros v. now rewrite in_app_iff, <- in_rev. }
  constructor.
  - intros v pv Hin. apply in_app_or in Hin as [Hin|Hin].
    + destruct (Hpaths v pv (or_intror Hin)) as [Hsp Hv]. split; auto.
      apply Hmark. now right.
    + apply in_map_iff in Hin as (w & [= <- <-] & Hw). split.
      * destruct (Hnew w Hw) as [Hwn Hwv].
        eapply new_entry_shortest; eauto.
        now apply (neighbors_has_edge G u nbrs w Hn).
      * apply Hmark. now left.
  - destruct (levels_head u p rest Hlevels) as (A & B & -> & HA & HB).
    exists (List.length p), A, (B ++ map (fun w => (w, p ++ [w])) new).
    split; [now rewrite app_assoc|]. split; auto.
    apply Forall_app. split; auto.
    apply Forall_forall. intros entry Hin.
    apply in_map_iff in Hin as (w & <- & _). unfold level_is. simpl.
    rewrite length_app. simpl. lia.
  - intros v Hv. apply Hmark in Hv as [Hv|Hv].
    + left. exists (p ++ [v]). apply in_or_app. right.
      apply in_map_iff. now exists v.
    + destruct (Hvis v Hv) as [[pv [Hin|Hin]]|[Hve Hdone]].
      * injection Hin as <- <-. right. split; auto.
        intros w Hw. apply Hmark.
        apply (neighbors_has_edge G u nbrs w Hn) in Hw. auto.
      * left. exists pv. apply in_or_app. now left.
      * right. split; auto. intros w Hw. apply Hmark. right. auto.
  - intros v Hv. apply Hmark in Hv as [Hv|Hv]; auto.
    apply (Hwf u nbrs v Hn). now apply Hnew.
  - apply Hmark. now right.
Qed.

(** With an empty queue every visited node has all its neighbours visited
    and is not [e]: no path leads from [s] to [e]. *)
Lemma empty_queue_unreachable G s e visited :
  bfs_inv G s e [] visited -> forall q, ~ is_path G s e q.
Proof.
  intros [_ _ Hvis _ Hstart] q Hq.
  assert (Hdone : forall v, In v visited ->
            v <> e /\ forall w, has_edge G v w = true -> In w visited).
  { intros v Hv. destruct (Hvis v Hv) as [[p []]|Hd]; auto. }
  destruct q as [|a rest]; simpl in Hq; [tauto|]. destruct Hq as [-> Hq].
  destruct (in_dec Z.eq_dec e visited) as [He|He].
  - now apply (Hdone e He).
  - destruct (path_crosses G visited rest s e Hq Hstart He)
      as (r1 & a & b & _ & Ha & Hb & Hab & _).
    apply Hb. now apply (Hdone a Ha).
Qed.

(** The loop answers within [fuel] tests of the queue, with a shortest path
    to [e] or with [None] when [e] cannot be reached. *)
Lemma bfs_loop_correct G s e : well_formed G ->
  forall fuel queue visited,
    bfs_inv G s e queue visited ->
    (List.length queue + unvisited G visited < fuel)%nat ->
    (exists p, bfs_loop fuel G e queue visited = Py.Return (Some p) /\
               shortest_path G s e p) \/
    (bfs_loop fuel G e queue visited = Py.Return None /\
     forall q, ~ is_path G s e q).
Proof.
  intros Hwf. induction fuel as [|fuel IH]; intros queue visited Hinv Hfuel; [lia|].
  destruct queue as [|[u p] rest]; simpl.
  - right. split; auto. eapply empty_queue_unreachable; eauto.
  - destruct (Z.eqb_spec u e) as [->|Hne].
    + left. exists p. split; auto.
      apply (bfs_paths _ _ _ _ _ Hinv e p). now left.
    + assert (Hu : has_node G u = true).
      { apply (bfs_nodes _ _ _ _ _ Hinv).
        apply (bfs_paths _ _ _ _ _ Hinv u p). now left. }
      destruct (has_node_neighbors G u Hu) as [nbrs Hn]. rewrite Hn.
      destruct (visit_neighbors_spec G p nbrs visited rest)
        as (new & Heq & Hnew & Hcov & Hlen).
      { intros w Hw. now apply (Hwf u nbrs w Hn). }
      rewrite Heq. apply IH.
      * eapply bfs_step_inv; eauto.
      * rewrite length_app, length_map. simpl in Hfuel. lia.
Qed.

Lemma bfs_init_inv G s e :
  has_node G s = true -> bfs_inv G s e [(s, [s])] [s].
Proof.
  intros Hs. constructor.
  - intros u p [[= <- <-]|[]]. split; [apply shortest_path_start | now left].
  - exists 1%nat, [(s, [s])], []. repeat split; auto. now repeat constructor.
  - intros v [<-|[]]. left. exists [s]. now left.
  - intros v [<-|[]]. auto.
  - now left.
Qed.

Lemma unvisited_start G s :
  has_node G s = true -> (unvisited G [s] < List.length G)%nat.
Proof.
  intros Hs. pose proof (unvisited_mark G s [] Hs (fun H => H)) as Hlt.
  assert (Hall : (unvisited G [] <= List.length G)%nat).
  { unfold unvisited, Dict.keys. rewrite <- (length_map fst G). apply filter_length_le_all. }
  lia.
Qed.

(** C1. On a graph whose neighbours are all nodes, as [networkx] keeps it,
    and for a start and an end that are nodes, the search returns: either a
    path from start to end that walks no more edges than any other path
    between them, or [None], and then no path joins start and end. *)
Theorem bfs_shortest_path_correct :
  forall (G : graph) (s e : Z),
    well_formed G ->
    has_node G s = true ->
    has_node G e = true ->
    (exists p, bfs_shortest_path G s e = Py.Return (Some p) /\
               is_path G s e p /\
               forall q, is_path G s e q -> (hops p <= hops q)%nat) \/
    (bfs_shortest_path G s e = Py.Return None /\
     forall q, ~ is_path G s e q).
Proof.
  intros G s e Hwf Hs He.
  assert (Hgoal :
    (exists p, bfs_shortest_path G s e = Py.Return (Some p) /\ shortest_path G s e p) \/
    (bfs_shortest_path G s e = Py.Return None /\ forall q, ~ is_path G s e q)).
  { unfold bfs_shortest_path, bfs_shortest_path_fuel.
    destruct (Z.eqb_spec s e) as [->|Hne].
    - left. exists [e]. split; auto. apply shortest_path_start.
    - rewrite Hs, He. cbn [negb orb]. apply (bfs_loop_correct G s e Hwf).
      + now apply bfs_init_inv.
      + pose proof (unvisited_start G s Hs). simpl. lia. }
  destruct Hgoal as [(p & Hret & Hp & Hmin)|Hnone]; [left | now right].
  exists p. repeat split; auto.
  intros q Hq. specialize (Hmin q Hq). unfold hops. lia.
Qed.

Lemma bfs_shortest_path_correct_witness :
  (exists p, bfs_shortest_path path_graph 0 3 = Py.Return (Some p) /\
             is_path path_graph 0 3 p /\
             forall q, is_path path_graph 0 3 q -> (hops p <= hops q)%nat) \/
  (bfs_shortest_path path_graph 0 3 = Py.Return None /\
   forall q, ~ is_path path_graph 0 3 q).
Proof.
  apply (bfs_shortest_path_correct path_graph 0 3).
  - apply well_formedb_sound. reflexivity.
  - reflexivity.
  - reflexivity.
Defined.

(** The path graph A-B-C-D of the specification: the search from A to D
    returns all four nodes, and a node of another component gets [None]. *)
Example bfs_path_graph :
  bfs_shortest_path path_graph 0 3 = Py.Return (Some [0; 1; 2; 3]) /\
  bfs_shortest_path path_graph 0 4 = Py.Return None.
Proof. split; reflexivity. Qed.

(** *** The graphs the builder makes *)

Lemma well_formed_edges G :
  (forall u v, has_edge G u v = true -> has_node G v = true) -> well_formed G.
Proof.
  intros Hedges u nbrs v Hn Hv. apply (Hedges u v).
  now apply (neighbors_has_edge G u nbrs v Hn).
Qed.

Lemma process_segment_edges index precision G seg :
  (forall u v, has_edge G u v = true -> has_node G v = true) ->
  forall u v, has_edge (process_segment index precision G seg) u v = true ->
              has_node (process_segment index precision G seg) v = true.
Proof.
  intros HG u v. unfold process_segment, process_line.
  destruct (Dict.get _ index) as [a|]; [|exact (HG u v)].
  destruct (Dict.get _ index) as [b|]; [|exact (HG u v)].
  destruct (negb (a =? b)); [|exact (HG u v)].
  unfold has_edge. rewrite get_edge_data_add_edge, has_node_add_edge.
  destruct (Z.eqb_spec a v) as [->|Hav].
  - now rewrite Z.eqb_refl.
  - destruct (Z.eqb_spec b v) as [->|Hbv].
    + now rewrite Z.eqb_refl, orb_true_r.
    + rewrite !andb_false_r, andb_false_l. simpl.
      intros He. rewrite (HG u v He). now rewrite !orb_true_r.
Qed.

(** The search theorem applies to every graph [build_network_graph] returns. *)
Lemma build_network_graph_well_formed lines index precision :
  well_formed (build_network_graph lines index precision).
Proof.
  apply well_formed_edges. rewrite build_network_graph_segments.
  generalize (segments lines). intros segs.
  assert (Hbase : forall u v,
            has_edge (add_nodes_from (Dict.values index) Dict.empty) u v = true ->
            has_node (add_nodes_from (Dict.values index) Dict.empty) v = true).
  { intros u v. unfold has_edge. rewrite get_edge_data_add_nodes_from. discriminate. }
  revert Hbase. generalize (add_nodes_from (Dict.values index) (@Dict.empty Z _)).
  induction segs as [|seg segs IH]; intros G HG; simpl; auto.
  apply IH. now apply process_segment_edges.
Qed.

(** * Further properties of the code *)

(** ** Strings *)

Lemma lstrip_cases s :
  Py.lstrip s = "" \/ exists c r, Py.lstrip s = String c r /\ Py.isspace c = false.
Proof.
  induction s as [|c s IH]; simpl; auto.
  destruct (Py.isspace c) eqn:Hc; auto. right. now exists c, s.
Qed.

Lemma rstrip_idempotent s : Py.rstrip (Py.rstrip s) = Py.rstrip s.
Proof.
  induction s as [|c s IH]; simpl; auto.
  destruct (Py.rstrip s) as [|c' r'] eqn:Hr.
  - destruct (Py.isspace c) eqn:Hc; simpl; auto. now rewrite Hc.
  - simpl in *. now rewrite IH.
Qed.

Lemma rstrip_keeps_head c r :
  Py.isspace c = false -> exists r', Py.rstrip (String c r) = String c r'.
Proof.
  intros Hc. simpl. destruct (Py.rstrip r) as [|c' r'].
  - rewrite Hc. now exists "".
  - now exists (String c' r').
Qed.

Lemma strip_idempotent s : Py.strip (Py.strip s) = Py.strip s.
Proof.
  unfold Py.strip. destruct (lstrip_cases s) as [->|(c & r & -> & Hc)]; auto.
  destruct (rstrip_keeps_head c r Hc) as [r' Hr]. rewrite Hr at 1. simpl Py.lstrip.
  rewrite Hc, <- Hr. apply rstrip_idempotent.
Qed.

Lemma lower_char_idempotent c : Py.lower_char (Py.lower_char c) = Py.lower_char c.
Proof.
  destruct c as [[] [] [] [] [] [] [] []]; reflexivity.
Qed.

Lemma lower_idempotent s : Py.lower (Py.lower s) = Py.lower s.
Proof.
  induction s as [|c s IH]; simpl; auto.
  now rewrite lower_char_idempotent, IH.
Qed.

Lemma rstrip_no_space s :
  string_forall (fun c => negb (Py.isspace c)) s = true -> Py.rstrip s = s.
Proof.
  induction s as [|c r IH]; simpl; auto.
  intros Hs. apply andb_prop in Hs as [Hc Hr]. apply negb_true_iff in Hc.
  rewrite (IH Hr). destruct r; auto. now rewrite Hc.
Qed.

(** A text without white space is its own [strip]. *)
Lemma strip_no_space s :
  string_forall (fun c => negb (Py.isspace c)) s = true -> Py.strip s = s.
Proof.
  intros Hs. unfold Py.strip.
  assert (Hl : Py.lstrip s = s).
  { destruct s as [|c r]; simpl in *; auto.
    apply andb_prop in Hs as [Hc _]. apply negb_true_iff in Hc. now rewrite Hc. }
  rewrite Hl. now apply rstrip_no_space.
Qed.

Lemma string_forall_str_of_int n :
  string_forall (fun c => negb (Py.isspace c)) (Py.str_of_int n) = true.
Proof.
  assert (Hu : forall u, string_forall (fun c => negb (Py.isspace c))
                           (NilZero.string_of_uint u) = true).
  { intros u. apply (string_forall_weaken is_digit).
    - intros c. destruct c as [[] [] [] [] [] [] [] []]; simpl; auto; discriminate.
    - unfold NilZero.string_of_uint.
      destruct u; try apply string_forall_of_uint. reflexivity. }
  unfold Py.str_of_int, NilZero.string_of_int.
  destruct (Z.to_int n); simpl; auto.
Qed.

(** ** Node Resolver, further *)

(** X1. A search mode other than "id" and "name" finds nothing, whatever the
    identifier and the nodes; so does a mode written in capitals. *)
Theorem find_networkx_id_unknown_mode :
  forall (identifier : string) (details_dict : Dict.t Z details) (search_by : string),
    search_by <> "id" -> search_by <> "name" ->
    find_networkx_id identifier details_dict search_by = None.
Proof.
  intros identifier details_dict search_by Hid Hname.
  unfold find_networkx_id, Dict.items.
  apply String.eqb_neq in Hid, Hname.
  induction details_dict as [|[n d] rest IH]; simpl; auto.
  now rewrite Hid, Hname.
Qed.

Lemma find_networkx_id_unknown_mode_witness :
  find_networkx_id "17" (snd (prepare_graph_nodes sample_points [] "Name" "id" 6)) "ID"
  = None.
Proof.
  apply find_networkx_id_unknown_mode; discriminate.
Defined.

(** X2. White space around the identifier plays no part: the identifier and
    its trimmed form resolve alike in every mode; and in mode "name" an
    identifier and its lowercase form resolve alike. *)
Theorem find_networkx_id_ignores_padding_and_case :
  forall (identifier : string) (details_dict : Dict.t Z details),
    (forall search_by,
        find_networkx_id (Py.strip identifier) details_dict search_by =
        find_networkx_id identifier details_dict search_by) /\
    find_networkx_id (Py.lower identifier) details_dict "name" =
    find_networkx_id identifier details_dict "name".
Proof.
  intros identifier details_dict. split.
  - intros search_by. unfold find_networkx_id. now rewrite strip_idempotent.
  - unfold find_networkx_id, Dict.items. rewrite !find_networkx_id_loop_name.
    f_equal. apply find_pointwise. intros item. f_equal.
    assert (Hcomm : forall s, Py.lstrip (Py.lower s) = Py.lower (Py.lstrip s)).
    { induction s as [|c s IH]; simpl; auto.
      replace (Py.isspace (Py.lower_char c)) with (Py.isspace c)
        by (destruct c as [[] [] [] [] [] [] [] []]; reflexivity).
      destruct (Py.isspace c); auto. }
    assert (Hcomm' : forall s, Py.rstrip (Py.lower s) = Py.lower (Py.rstrip s)).
    { induction s as [|c s IH]; simpl; auto. rewrite IH.
      destruct (Py.rstrip s); simpl; auto.
      replace (Py.isspace (Py.lower_char c)) with (Py.isspace c)
        by (destruct c as [[] [] [] [] [] [] [] []]; reflexivity).
      destruct (Py.isspace c); auto. }
    unfold Py.strip. now rewrite Hcomm, Hcomm', lower_idempotent.
Qed.

(** ** Node Index Builder, further *)

Lemma In_get_NoDup {K V : Type} `{EqDec K} (k : K) (v : V) (d : Dict.t K V) :
  NoDup (Dict.keys d) -> In (k, v) d -> Dict.get k d = Some v.
Proof.
  induction d as [|[k' v'] r IH]; simpl; [tauto|].
  intros Hnd [Heq|Hin].
  - injection Heq as -> ->. now rewrite eqb_refl.
  - inversion Hnd as [|? ? Hni Hnd']; subst.
    destruct (eqb_spec k k') as [->|Hne].
    + exfalso. apply Hni. change k' with (fst (k', v)). now apply in_map.
    + auto.
Qed.

Lemma first_with_key_Some precision k rows r :
  first_with_key precision k rows = Some r -> In r rows /\ row_key precision r = k.
Proof.
  unfold first_with_key. intros Hf. apply find_some in Hf as [Hin Hk].
  apply String.eqb_eq in Hk. auto.
Qed.

(** Every entry of the details mapping was made from a row that the loop
    read, the first one of its key, and this key leads back to the entry's
    id. *)
Lemma stored_details_origin ints blds name_col id_col precision i d :
  Dict.get i (snd (prepare_graph_nodes ints blds name_col id_col precision)) = Some d ->
  exists r,
    In r (drop_duplicates (ints ++ blds)) /\
    d = details_of name_col id_col i r /\
    first_with_key precision (row_key precision r) (drop_duplicates (ints ++ blds))
      = Some r /\
    Dict.get (row_key precision r)
      (fst (prepare_graph_nodes ints blds name_col id_col precision)) = Some i.
Proof.
  rewrite prepare_graph_nodes_loop. simpl.
  destruct (prepare_graph_nodes_inv ints blds name_col id_col precision)
    as [_ _ Hdk Hnd _ Hfirst].
  set (st := index_loop name_col id_col precision
               (drop_duplicates (ints ++ blds)) index_init) in *.
  intros Hg.
  assert (Hi : In i (Dict.values (node_coords_to_networkx_id st))).
  { rewrite <- Hdk. apply get_Some_In in Hg.
    change i with (fst (i, d)). now apply in_map. }
  apply in_map_iff in Hi as ([k i'] & Heq & Hin). simpl in Heq. subst i'.
  apply In_get_NoDup in Hin; auto.
  destruct (Hfirst k i Hin) as (r & Hr & Hd).
  destruct (first_with_key_Some _ _ _ _ Hr) as [Hrin Hk].
  exists r. subst k. repeat split; auto. congruence.
Qed.

Lemma strip_qgis_name_of name_col i row :
  Py.strip (qgis_name_of name_col i row) = qgis_name_of name_col i row.
Proof.
  unfold qgis_name_of. destruct (Py.notna _).
  - apply strip_idempotent.
  - apply strip_no_space. rewrite string_forall_app, string_forall_str_of_int.
    reflexivity.
Qed.

Lemma strip_qgis_unique_id_of id_col i row :
  Py.strip (qgis_unique_id_of id_col i row) = qgis_unique_id_of id_col i row.
Proof.
  unfold qgis_unique_id_of. destruct (Py.notna _).
  - apply strip_idempotent.
  - apply strip_no_space. rewrite string_forall_app, string_forall_str_of_int.
    reflexivity.
Qed.

Lemma stored_names_and_ids_trimmed_aux ints blds name_col id_col precision i d :
  Dict.get i (snd (prepare_graph_nodes ints blds name_col id_col precision)) = Some d ->
  Py.strip (name d) = name d /\ Py.strip (qgis_id d) = qgis_id d.
Proof.
  intros Hg.
  destruct (stored_details_origin _ _ _ _ _ _ _ Hg) as (r & _ & -> & _).
  simpl. split; [apply strip_qgis_name_of | apply strip_qgis_unique_id_of].
Qed.

(** X3. No stored name and no stored unique id has white space at either
    end: trimming them changes nothing. *)
Theorem stored_names_and_ids_are_trimmed :
  forall (intersections_gdf buildings_gdf : list point_row)
         (name_col id_col : string) (precision : nat) (i : Z) (d : details),
    Dict.get i (snd (prepare_graph_nodes intersections_gdf buildings_gdf
                       name_col id_col precision)) = Some d ->
    Py.strip (name d) = name d /\ Py.strip (qgis_id d) = qgis_id d.
Proof.
  intros ints blds name_col id_col precision i d Hg.
  now apply (stored_names_and_ids_trimmed_aux ints blds name_col id_col precision i).
Qed.

Lemma stored_names_and_ids_are_trimmed_witness :
  exists d,
    Dict.get 0 (snd (prepare_graph_nodes sample_points [] "Name" "id" 6)) = Some d /\
    name d = "Main Gate" /\ Py.strip (name d) = name d.
Proof.
  eexists. split; [reflexivity|]. split; [reflexivity|].
  apply (stored_names_and_ids_are_trimmed sample_points [] "Name" "id" 6 0).
  reflexivity.
Defined.

(** X4. Going from a node id to its details, from the geometry kept there
    to its coordinate key, and from this key through the first mapping,
    leads back to the node id. *)
Theorem details_geometry_key_round_trip :
  forall (intersections_gdf buildings_gdf : list point_row)
         (name_col id_col : string) (precision : nat) (i : Z) (d : details),
    let index := prepare_graph_nodes intersections_gdf buildings_gdf
                   name_col id_col precision in
    Dict.get i (snd index) = Some d ->
    Dict.get (coords_key precision (geometry d)) (fst index) = Some i.
Proof.
  intros ints blds name_col id_col precision i d index Hg.
  destruct (stored_details_origin _ _ _ _ _ _ _ Hg) as (r & _ & -> & _ & Hk).
  exact Hk.
Qed.

Lemma details_geometry_key_round_trip_witness :
  Dict.get (coords_key 6 (pt 1))
    (fst (prepare_graph_nodes sample_points [] "Name" "id" 6)) = Some 2.
Proof.
  apply (details_geometry_key_round_trip sample_points [] "Name" "id" 6 2
           (details_of "Name" "id" 2 {| row_geometry := pt 1;
                                        row_columns := [("Name", Py.NA)] |})).
  reflexivity.
Defined.

(** In a list whose keys count up from [a], the first entry that passes a
    test has the least key among the entries that pass it. *)
Lemma find_least_key {V : Type} (f : Z * V -> bool) (l : list (Z * V)) :
  forall a n i v,
    map fst l = map Z.of_nat (seq a n) ->
    In (i, v) l -> f (i, v) = true ->
    exists j w, find f l = Some (j, w) /\ j <= i /\ In (j, w) l /\ f (j, w) = true.
Proof.
  induction l as [|[k u] l IH]; intros a n i v Hkeys Hin Hf; [destruct Hin|].
  destruct n as [|n]; [discriminate|]. simpl in Hkeys.
  injection Hkeys as Hk Hkeys. simpl.
  assert (Hge : k <= i).
  { destruct Hin as [[= <- <-]|Hin]; [lia|].
    assert (Hi : In i (map Z.of_nat (seq (S a) n))).
    { rewrite <- Hkeys. change i with (fst (i, v)). now apply in_map. }
    apply in_map_iff in Hi as (m & <- & Hm). apply in_seq in Hm. lia. }
  destruct (f (k, u)) eqn:Hfk.
  - exists k, u. repeat split; auto.
  - destruct Hin as [[= <- <-]|Hin]; [congruence|].
    destruct (IH (S a) n i v Hkeys Hin Hf) as (j & w & Hfind & Hle & Hjin & Hfj).
    exists j, w. repeat split; auto.
Qed.

Lemma prepared_details_keys ints blds name_col id_col precision :
  exists n,
    Dict.keys (snd (prepare_graph_nodes ints blds name_col id_col precision)) =
    ids_upto n.
Proof.
  rewrite prepare_graph_nodes_loop. simpl.
  destruct (prepare_graph_nodes_inv ints blds name_col id_col precision)
    as [Hval _ Hdk _ _ _].
  eexists. rewrite Hdk. exact Hval.
Qed.

(** X5. Every node is found again by what the index stores for it: a
    search by its stored unique id, or by its stored name, answers a node
    with the same unique id, or with the same name up to case, and of all
    such nodes the one with the least id. *)
Theorem stored_identifiers_resolve :
  forall (intersections_gdf buildings_gdf : list point_row)
         (name_col id_col : string) (precision : nat) (i : Z) (d : details),
    let details_dict := snd (prepare_graph_nodes intersections_gdf buildings_gdf
                               name_col id_col precision) in
    Dict.get i details_dict = Some d ->
    (exists j d', find_networkx_id (qgis_id d) details_dict "id" = Some j /\
                  j <= i /\ Dict.get j details_dict = Some d' /\
                  qgis_id d' = qgis_id d) /\
    (exists j d', find_networkx_id (name d) details_dict "name" = Some j /\
                  j <= i /\ Dict.get j details_dict = Some d' /\
                  Py.lower (name d') = Py.lower (name d)).
Proof.
  intros ints blds name_col id_col precision i d details_dict Hg.
  destruct (stored_names_and_ids_trimmed_aux ints blds name_col id_col precision i d Hg)
    as [Hname Hid].
  destruct (prepared_details_keys ints blds name_col id_col precision) as [n Hkeys].
  fold details_dict in Hkeys.
  assert (Hnd : NoDup (Dict.keys details_dict)).
  { rewrite Hkeys. apply NoDup_ids_upto. }
  pose proof (get_Some_In _ _ _ Hg) as Hin.
  split.
  - unfold find_networkx_id, Dict.items. rewrite find_networkx_id_loop_id, Hid.
    destruct (find_least_key
                (fun item => (qgis_id (snd item) =? qgis_id d)%string)
                details_dict 0 n i d Hkeys Hin (String.eqb_refl _))
      as (j & d' & Hfind & Hle & Hjin & Hq).
    exists j, d'. rewrite Hfind. simpl in Hq. apply String.eqb_eq in Hq.
    repeat split; auto. now apply In_get_NoDup.
  - unfold find_networkx_id, Dict.items. rewrite find_networkx_id_loop_name, Hname.
    destruct (find_least_key
                (fun item => (Py.lower (name (snd item)) =? Py.lower (name d))%string)
                details_dict 0 n i d Hkeys Hin (String.eqb_refl _))
      as (j & d' & Hfind & Hle & Hjin & Hq).
    exists j, d'. rewrite Hfind. simpl in Hq. apply String.eqb_eq in Hq.
    repeat split; auto. now apply In_get_NoDup.
Qed.

Lemma stored_identifiers_resolve_witness :
  exists j d',
    find_networkx_id "Main Gate"
      (snd (prepare_graph_nodes sample_points [] "Name" "id" 6)) "name" = Some j /\
    j <= 0 /\
    Dict.get j (snd (prepare_graph_nodes sample_points [] "Name" "id" 6)) = Some d' /\
    Py.lower (name d') = Py.lower "Main Gate".
Proof.
  apply (stored_identifiers_resolve sample_points [] "Name" "id" 6 0
           (details_of "Name" "id" 0 (hd blank_row sample_points))).
  reflexivity.
Defined.

(** X6. The two mappings are empty exactly when both layers have no row;
    one row is enough for a node. *)
Theorem prepare_graph_nodes_empty_iff :
  forall (intersections_gdf buildings_gdf : list point_row)
         (name_col id_col : string) (precision : nat),
    let index := prepare_graph_nodes intersections_gdf buildings_gdf
                   name_col id_col precision in
    (intersections_gdf ++ buildings_gdf = [] <-> fst index = []) /\
    (fst index = [] <-> snd index = []).
Proof.
  intros ints blds name_col id_col precision index. unfold index.
  destruct (ints ++ blds) as [|r rows] eqn:Hrows.
  - apply app_eq_nil in Hrows as [-> ->]. simpl. tauto.
  - rewrite prepare_graph_nodes_loop. simpl.
    destruct (prepare_graph_nodes_inv ints blds name_col id_col precision)
      as [_ _ Hdk _ Hdom _].
    rewrite Hrows, drop_duplicates_cons in *.
    set (st := index_loop name_col id_col precision _ index_init) in *.
    assert (Hmem : Dict.mem (row_key precision r) (node_coords_to_networkx_id st) = true).
    { apply Hdom. now left. }
    unfold Dict.mem in Hmem.
    destruct (node_coords_to_networkx_id st) as [|kv index']; [discriminate|].
    destruct (networkx_id_to_details st); [discriminate|].
    split; split; discriminate.
Qed.

Lemma prepare_graph_nodes_empty_iff_witness :
  fst (prepare_graph_nodes [] [] "Name" "id" 6) = [] /\
  snd (prepare_graph_nodes [] [] "Name" "id" 6) = [].
Proof.
  pose proof (prepare_graph_nodes_empty_iff [] [] "Name" "id" 6) as [H1 H2].
  assert (Hfst : fst (prepare_graph_nodes [] [] "Name" "id" 6) = []).
  { apply H1. reflexivity. }
  split; [exact Hfst | now apply H2].
Defined.

(** ** Graph Builder, further *)

Lemma has_node_process_segment index precision G seg n :
  (has_node G n = true <-> In n (Dict.values index)) ->
  (has_node (process_segment index precision G seg) n = true <->
   In n (Dict.values index)).
Proof.
  intros HG. unfold process_segment, process_line.
  destruct (Dict.get (coords_key precision (coords_first (fst seg))) index)
    as [a|] eqn:Ha; auto.
  destruct (Dict.get (coords_key precision (coords_last (fst seg))) index)
    as [b|] eqn:Hb; auto.
  destruct (negb (a =? b)); auto.
  rewrite has_node_add_edge. apply get_Some_values in Ha, Hb.
  destruct (Z.eqb_spec n a) as [->|]; [simpl; tauto|].
  destruct (Z.eqb_spec n b) as [->|]; [simpl; tauto|]. simpl. exact HG.
Qed.

Lemma build_network_graph_nodes_aux lines index precision n :
  has_node (build_network_graph lines index precision) n = true <->
  In n (Dict.values index).
Proof.
  rewrite build_network_graph_segments.
  assert (Hbase : has_node (add_nodes_from (Dict.values index) Dict.empty) n = true <->
                  In n (Dict.values index)).
  { rewrite has_node_add_nodes_from, orb_false_r. apply memZ_In. }
  revert Hbase. generalize (add_nodes_from (Dict.values index) (@Dict.empty Z _)).
  induction (segments lines) as [|seg segs IH]; intros G HG; simpl; auto.
  apply IH. now apply has_node_process_segment.
Qed.

(** X8. The nodes of the built graph are the ids of the index, no more and
    no less; an id that no road reaches is a node all the same. *)
Theorem build_network_graph_nodes :
  forall (road_lines_gdf : list line_row) (index : Dict.t string Z)
         (precision : nat) (n : Z),
    has_node (build_network_graph road_lines_gdf index precision) n = true <->
    In n (Dict.values index).
Proof.
  intros lines index precision n. apply build_network_graph_nodes_aux.
Qed.

Lemma has_edge_build_iff lines index precision u v :
  has_edge (build_network_graph lines index precision) u v = true <->
  exists seg, In seg (segments lines) /\ connects index precision u v seg = true.
Proof.
  unfold has_edge. rewrite get_edge_data_build.
  destruct (find _ _) as [seg|] eqn:Hf; simpl.
  - apply find_some_rev in Hf as [Hin Hc]. split; auto. intros _. now exists seg.
  - split; [discriminate|]. intros (seg & Hin & Hc).
    rewrite (find_none _ _ Hf seg) in Hc; [discriminate|]. now apply -> in_rev.
Qed.

(** X9. No usable segment is lost: two nodes are joined by an edge exactly
    when some segment of the road layer resolves to the two of them, in one
    order or the other, and they differ. *)
Theorem build_network_graph_edge_iff :
  forall (road_lines_gdf : list line_row) (index : Dict.t string Z)
         (precision : nat) (u v : Z),
    has_edge (build_network_graph road_lines_gdf index precision) u v = true <->
    exists seg, In seg (segments road_lines_gdf) /\
                connects index precision u v seg = true.
Proof.
  intros lines index precision u v. apply has_edge_build_iff.
Qed.

(** X10. Built on the index of [prepare_graph_nodes], the graph has as
    nodes exactly the ids that have details: every node can be described,
    and every described id is a node. *)
Theorem pipeline_nodes_have_details :
  forall (intersections_gdf buildings_gdf : list point_row)
         (name_col id_col : string) (precision : nat)
         (road_lines_gdf : list line_row) (n : Z),
    let index := prepare_graph_nodes intersections_gdf buildings_gdf
                   name_col id_col precision in
    let G := build_network_graph road_lines_gdf (fst index) precision in
    has_node G n = Dict.mem n (snd index).
Proof.
  intros ints blds name_col id_col precision lines n index G.
  pose proof (build_network_graph_nodes_aux lines (fst index) precision n) as HG.
  fold G in HG.
  assert (Hkeys : Dict.keys (snd index) = Dict.values (fst index)).
  { unfold index. rewrite prepare_graph_nodes_loop. simpl.
    now destruct (prepare_graph_nodes_inv ints blds name_col id_col precision). }
  rewrite <- Hkeys, <- mem_keys in HG.
  destruct (has_node G n), (Dict.mem n (snd index)); auto.
  - symmetry. now apply HG.
  - now apply HG.
Qed.

(** ** Pathfinder, further *)

Lemma bfs_shortest_path_spec G s e :
  well_formed G -> has_node G s = true -> has_node G e = true ->
  (exists p, bfs_shortest_path G s e = Py.Return (Some p) /\ shortest_path G s e p) \/
  (bfs_shortest_path G s e = Py.Return None /\ forall q, ~ is_path G s e q).
Proof.
  intros Hwf Hs He. unfold bfs_shortest_path, bfs_shortest_path_fuel.
  destruct (Z.eqb_spec s e) as [->|Hne].
  - left. exists [e]. split; auto. apply shortest_path_start.
  - rewrite Hs, He. cbn [negb orb]. apply (bfs_loop_correct G s e Hwf).
    + now apply bfs_init_inv.
    + pose proof (unvisited_start G s Hs). simpl. lia.
Qed.

Lemma has_edge_has_node G u v : has_edge G u v = true -> has_node G u = true.
Proof.
  unfold has_edge, get_edge_data, has_node, Dict.mem.
  destruct (Dict.get u G); [auto | discriminate].
Qed.

Lemma well_formed_has_edge G u v :
  well_formed G -> has_edge G u v = true -> has_node G v = true.
Proof.
  intros Hwf He. pose proof (has_edge_has_node G u v He) as Hu.
  destruct (has_node_neighbors G u Hu) as [nbrs Hn].
  apply (Hwf u nbrs v Hn). now apply (neighbors_has_edge G u nbrs v Hn).
Qed.

Lemma is_path_from_nodes G u rest e :
  well_formed G -> has_node G u = true -> is_path_from G u rest e ->
  forall n, In n (u :: rest) -> has_node G n = true.
Proof.
  intros Hwf. revert u. induction rest as [|v rest IH]; intros u Hu Hp n Hn.
  - destruct Hn as [<-|[]]. auto.
  - destruct Hp as [He Hp]. destruct Hn as [<-|Hn]; auto.
    apply (IH v); auto. eapply well_formed_has_edge; eauto.
Qed.

(** A path through [x] holds a path from [x] that is no longer. *)
Lemma is_path_from_suffix G v rest e x :
  is_path_from G v rest e -> In x (v :: rest) ->
  exists r2, is_path_from G x r2 e /\ (List.length r2 <= List.length rest)%nat.
Proof.
  revert v. induction rest as [|w rest IH]; intros v Hp Hx.
  - destruct Hx as [<-|[]]. now exists [].
  - destruct Hx as [<-|Hx]; [now exists (w :: rest)|].
    destruct Hp as [_ Hp]. destruct (IH w Hp Hx) as (r2 & Hr2 & Hlen).
    exists r2. simpl. split; auto.
Qed.

(** A path that no path undercuts visits no node twice. *)
Lemma shortest_from_NoDup G e rest : forall u,
  is_path_from G u rest e ->
  (forall rest', is_path_from G u rest' e -> (List.length rest <= List.length rest')%nat) ->
  NoDup (u :: rest).
Proof.
  induction rest as [|v rest IH]; intros u Hp Hmin.
  - repeat constructor. simpl. tauto.
  - destruct Hp as [He Hp]. constructor.
    + intros Hu. destruct (is_path_from_suffix G v rest e u Hp Hu) as (r2 & Hr2 & Hlen).
      specialize (Hmin r2 Hr2). simpl in Hmin. lia.
    + apply IH; auto. intros rest' Hp'.
      specialize (Hmin (v :: rest') (conj He Hp')). simpl in Hmin. lia.
Qed.

Lemma shortest_path_NoDup G s e p : shortest_path G s e p -> NoDup p.
Proof.
  intros [Hp Hmin]. destruct p as [|u rest]; simpl in Hp; [tauto|].
  destruct Hp as [-> Hp]. apply (shortest_from_NoDup G e rest s Hp).
  intros rest' Hp'. specialize (Hmin (s :: rest') (conj eq_refl Hp')).
  simpl in Hmin. lia.
Qed.

(** X11. The path the search returns is a simple one: no node appears
    twice in it, and all its nodes are nodes of the graph, each joined to the
    next by an edge. *)
Theorem bfs_path_is_simple :
  forall (G : graph) (s e : Z) (p : list Z),
    well_formed G -> has_node G s = true -> has_node G e = true ->
    bfs_shortest_path G s e = Py.Return (Some p) ->
    NoDup p /\ is_path G s e p /\ forall n, In n p -> has_node G n = true.
Proof.
  intros G s e p Hwf Hs He Hret.
  destruct (bfs_shortest_path_spec G s e Hwf Hs He)
    as [(p' & Hret' & Hsp)|[Hnone _]]; [|congruence].
  assert (p' = p) by congruence. subst p'.
  split; [eapply shortest_path_NoDup; eauto|]. destruct Hsp as [Hp _].
  split; auto. destruct p as [|u rest]; simpl in Hp; [tauto|].
  destruct Hp as [-> Hp]. eapply is_path_from_nodes; eauto.
Qed.

Lemma bfs_path_is_simple_witness :
  NoDup [0; 1; 2; 3] /\ is_path path_graph 0 3 [0; 1; 2; 3] /\
  forall n, In n [0; 1; 2; 3] -> has_node path_graph n = true.
Proof.
  apply (bfs_path_is_simple path_graph 0 3).
  - apply well_formedb_sound. reflexivity.
  - reflexivity.
  - reflexivity.
  - reflexivity.
Defined.

(** In a graph whose edges go both ways a path can be walked backwards. *)
Lemma is_path_rev G s e p :
  symmetric G -> is_path G s e p -> is_path G e s (rev p).
Proof.
  intros Hsym. destruct p as [|u rest]; simpl; [tauto|]. intros [-> Hp].
  revert s Hp. induction rest as [|v rest IH]; intros s Hp.
  - simpl in *. subst. auto.
  - destruct Hp as [He Hp]. specialize (IH v Hp).
    change (rev (s :: v :: rest)) with (rev (v :: rest) ++ [s]).
    apply (is_path_snoc G e v s); auto.
    unfold has_edge in *. now rewrite Hsym.
Qed.

Lemma symmetric_add_edge G a b attrs :
  symmetric G -> symmetric (add_edge a b attrs G).
Proof.
  intros Hsym u v. rewrite !get_edge_data_add_edge, (Hsym u v).
  now rewrite orb_comm.
Qed.

Lemma symmetric_add_nodes_from ns : symmetric (add_nodes_from ns Dict.empty).
Proof.
  intros u v. rewrite !get_edge_data_add_nodes_from.
  unfold get_edge_data. reflexivity.
Qed.

(** X12. In an undirected graph the search is the same in both directions:
    from end to start it finds a path exactly when it finds one from start to
    end, and the two paths have the same number of nodes. *)
Theorem bfs_both_directions :
  forall (G : graph) (s e : Z),
    well_formed G -> symmetric G ->
    has_node G s = true -> has_node G e = true ->
    (bfs_shortest_path G s e = Py.Return None <->
     bfs_shortest_path G e s = Py.Return None) /\
    (forall p q,
        bfs_shortest_path G s e = Py.Return (Some p) ->
        bfs_shortest_path G e s = Py.Return (Some q) ->
        List.length p = List.length q).
Proof.
  intros G s e Hwf Hsym Hs He.
  destruct (bfs_shortest_path_spec G s e Hwf Hs He) as [(p & Hp & Hsp)|[Hn Hno]];
    destruct (bfs_shortest_path_spec G e s Hwf He Hs) as [(q & Hq & Hsq)|[Hn' Hno']].
  - split; [split; congruence|]. intros p' q' Hp' Hq'.
    assert (p' = p) by congruence. assert (q' = q) by congruence. subst.
    destruct Hsp as [Hpath Hmin], Hsq as [Hpath' Hmin'].
    specialize (Hmin _ (is_path_rev G e s q Hsym Hpath')).
    specialize (Hmin' _ (is_path_rev G s e p Hsym Hpath)).
    rewrite length_rev in Hmin, Hmin'. lia.
  - destruct Hsp as [Hpath _]. elim (Hno' _ (is_path_rev G s e p Hsym Hpath)).
  - destruct Hsq as [Hpath _]. elim (Hno _ (is_path_rev G e s q Hsym Hpath)).
  - split; [tauto|]. congruence.
Qed.

Lemma bfs_both_directions_witness :
  bfs_shortest_path path_graph 0 4 = Py.Return None <->
  bfs_shortest_path path_graph 4 0 = Py.Return None.
Proof.
  apply (bfs_both_directions path_graph 0 4).
  - apply well_formedb_sound. reflexivity.
  - repeat apply symmetric_add_edge. apply symmetric_add_nodes_from.
  - reflexivity.
  - reflexivity.
Defined.

(** X13. Two different nodes joined by an edge get the path made of just
    the two of them. *)
Theorem bfs_neighbours :
  forall (G : graph) (s e : Z),
    well_formed G -> has_edge G s e = true -> s <> e ->
    bfs_shortest_path G s e = Py.Return (Some [s; e]).
Proof.
  intros G s e Hwf Hedge Hne.
  pose proof (has_edge_has_node G s e Hedge) as Hs.
  pose proof (well_formed_has_edge G s e Hwf Hedge) as He.
  assert (Hdirect : is_path G s e [s; e]) by (simpl; auto).
  destruct (bfs_shortest_path_spec G s e Hwf Hs He) as [(p & Hp & Hpath & Hmin)|[_ Hno]];
    [|elim (Hno _ Hdirect)].
  rewrite Hp. do 2 f_equal. specialize (Hmin _ Hdirect). simpl in Hmin.
  destruct p as [|a [|b [|c p]]]; simpl in *; try lia.
  destruct Hpath as [-> [_ ->]]. reflexivity.
Qed.

Lemma bfs_neighbours_witness :
  bfs_shortest_path path_graph 2 1 = Py.Return (Some [2; 1]).
Proof.
  apply (bfs_neighbours path_graph 2 1).
  - apply well_formedb_sound. reflexivity.
  - reflexivity.
  - lia.
Defined.

(** ** Path Narrator *)

Lemma find_networkx_id_loop_mem stripped items search_by j :
  find_networkx_id_loop stripped items search_by = Some j ->
  In j (map fst items).
Proof.
  induction items as [|[n d] rest IH]; simpl; [discriminate|].
  destruct (search_by =? "id")%string.
  - destruct (qgis_id d =? stripped)%string; [intros [= ->]; now left | auto].
  - destruct (search_by =? "name")%string; auto.
    destruct (Py.lower (name d) =? Py.lower stripped)%string;
      [intros [= ->]; now left | auto].
Qed.

(** The resolver answers ids that have details. *)
Lemma find_networkx_id_mem identifier details_dict search_by j :
  find_networkx_id identifier details_dict search_by = Some j ->
  exists d, Dict.get j details_dict = Some d.
Proof.
  intros Hf. unfold find_networkx_id, Dict.items in Hf.
  apply find_networkx_id_loop_mem in Hf.
  apply (proj2 (mem_keys j details_dict)) in Hf. unfold Dict.mem in Hf.
  destruct (Dict.get j details_dict) as [d|]; [now exists d | discriminate].
Qed.

Lemma described_get G details_dict n :
  described G details_dict -> has_node G n = true ->
  exists d, Dict.get n details_dict = Some d.
Proof.
  intros Hd Hn. specialize (Hd n Hn). unfold Dict.mem in Hd.
  destruct (Dict.get n details_dict) as [d|]; [now exists d | discriminate].
Qed.

Lemma qgis_ids_of_described G details_dict path :
  described G details_dict ->
  (forall n, In n path -> has_node G n = true) ->
  exists ids, qgis_ids_of details_dict path = ([], Py.Return ids).
Proof.
  intros Hd. induction path as [|n path IH]; intros Hnodes; simpl.
  - now exists [].
  - destruct (described_get G details_dict n Hd (Hnodes n (or_introl eq_refl)))
      as [d Hg].
    destruct IH as [ids Hids]; [intros m Hm; apply Hnodes; now right|].
    exists (qgis_id d :: ids). unfold getitem. rewrite Hg. simpl. now rewrite Hids.
Qed.

(** Along a path of the graph the steps are narrated without a warning and
    without an exception: one arrival per node, one road per edge. *)
Lemma narrate_steps_path G details_dict :
  described G details_dict -> well_formed G ->
  forall rest u e i,
    has_node G u = true -> is_path_from G u rest e ->
    exists printed,
      narrate_steps G details_dict i (u :: rest) = (printed, Py.Return tt) /\
      filter is_warning printed = [] /\
      List.length (filter is_arrive printed) = S (List.length rest) /\
      List.length (filter is_proceed printed) = List.length rest /\
      (forall k, ~ In (StepCount k) printed) /\
      filter is_not_found printed = [].
Proof.
  intros Hd Hwf. induction rest as [|v rest IH]; intros u e i Hu Hp.
  - destruct (described_get G details_dict u Hd Hu) as [d Hg].
    eexists. simpl. unfold getitem. rewrite Hg. simpl. split; [reflexivity|].
    repeat split; auto. intros k [H|[]]. discriminate.
  - destruct Hp as [He Hp].
    destruct (described_get G details_dict u Hd Hu) as [d Hg].
    pose proof (well_formed_has_edge G u v Hwf He) as Hv.
    destruct (IH v e (i + 1) Hv Hp) as (printed & Hrun & Hw & Ha & Hpr & Hsc & Hnf).
    assert (Hdata : exists ed, get_edge_data G u v = Some ed).
    { unfold has_edge in He. destruct (get_edge_data G u v) as [ed|];
        [now exists ed | discriminate]. }
    destruct Hdata as [ed Hed].
    exists (Arrive (i + 1) (name d) (qgis_id d) (geometry d)
              :: Proceed (description ed) :: printed).
    split.
    + change (narrate_steps G details_dict i (u :: v :: rest)) with
        (node_info <- getitem details_dict u ;;
         print (Arrive (i + 1) (name node_info) (qgis_id node_info)
                       (geometry node_info)) ;;
         (if has_edge G u v then
            match get_edge_data G u v with
            | Some edge_data => print (Proceed (description edge_data))
            | None => call (Py.Raise "AttributeError")
            end
          else
            next_info <- getitem details_dict v ;;
            print (Warning (name node_info) (name next_info))) ;;
         narrate_steps G details_dict (i + 1) (v :: rest)).
      unfold getitem. rewrite Hg, He, Hed, Hrun. reflexivity.
    + simpl. rewrite Hw, Ha, Hpr, Hnf. repeat split; auto.
      intros k [H|[H|H]]; try discriminate. now apply (Hsc k).
Qed.

Lemma bfs_absent_node G s e :
  s <> e -> has_node G s = false \/ has_node G e = false ->
  bfs_shortest_path G s e = Py.Return None.
Proof.
  intros Hne Habs. unfold bfs_shortest_path, bfs_shortest_path_fuel.
  apply Z.eqb_neq in Hne. rewrite Hne.
  destruct Habs as [-> | ->]; simpl; auto. now rewrite orb_true_r.
Qed.

(** Between two different ids the search on a well-formed graph answers
    [None], or a path that starts at the first id, a node, and follows edges
    to the second. *)
Lemma bfs_outcome_distinct G s e :
  well_formed G -> s <> e ->
  bfs_shortest_path G s e = Py.Return None \/
  exists rest, bfs_shortest_path G s e = Py.Return (Some (s :: rest)) /\
               has_node G s = true /\ is_path_from G s rest e.
Proof.
  intros Hwf Hne.
  destruct (has_node G s) eqn:Hs; [|left; apply bfs_absent_node; auto].
  destruct (has_node G e) eqn:He; [|left; apply bfs_absent_node; auto].
  destruct (bfs_shortest_path_spec G s e Hwf Hs He) as [(p & Hp & Hpath & _)|[Hn _]];
    auto.
  right. destruct p as [|u rest]; simpl in Hpath; [tauto|].
  destruct Hpath as [-> Hpath]. now exists rest.
Qed.

Lemma narration_aux G a b mode details_dict :
  well_formed G -> described G details_dict ->
  snd (find_and_print_path G a b mode details_dict) = Py.Return tt /\
  filter is_warning (fst (find_and_print_path G a b mode details_dict)) = [] /\
  (forall k, In (StepCount k) (fst (find_and_print_path G a b mode details_dict)) ->
     Z.of_nat (List.length
                 (filter is_arrive (fst (find_and_print_path G a b mode details_dict))))
     = k + 1 /\
     Z.of_nat (List.length
                 (filter is_proceed (fst (find_and_print_path G a b mode details_dict))))
     = k) /\
  (forall s e, find_networkx_id a details_dict mode = Some s ->
               find_networkx_id b details_dict mode = Some e ->
     filter is_not_found (fst (find_and_print_path G a b mode details_dict)) = []).
Proof.
  intros Hwf Hd. unfold find_and_print_path.
  destruct (find_networkx_id a details_dict mode) as [s|] eqn:Hfs.
  2: { simpl. split; [|split; [|split]]; auto.
       - intros k [H|[H|[]]]; discriminate.
       - intros ? ? H. discriminate. }
  destruct (find_networkx_id b details_dict mode) as [e|] eqn:Hfe.
  2: { simpl. split; [|split; [|split]]; auto.
       - intros k [H|[H|[]]]; discriminate.
       - intros ? ? _ H. discriminate. }
  destruct (find_networkx_id_mem _ _ _ _ Hfs) as [ds Hgs].
  destruct (find_networkx_id_mem _ _ _ _ Hfe) as [de Hge].
  unfold getitem. rewrite Hgs, Hge.
  destruct (Z.eqb_spec s e) as [->|Hne].
  { simpl. split; [|split; [|split]]; auto.
    intros k H. repeat (destruct H as [H|H]; try discriminate). destruct H. }
  destruct (bfs_outcome_distinct G s e Hwf Hne) as [Hnone|(rest & Hret & Hs & Hpath)].
  - rewrite Hnone. simpl. split; [|split; [|split]]; auto.
    intros k H. repeat (destruct H as [H|H]; try discriminate). destruct H.
  - rewrite Hret.
    destruct (qgis_ids_of_described G details_dict (s :: rest) Hd) as [ids Hids].
    { eapply is_path_from_nodes; eauto. }
    destruct (narrate_steps_path G details_dict Hd Hwf rest s e 0 Hs Hpath)
      as (printed & Hrun & Hw & Ha & Hp & Hsc & Hnf).
    assert (Hsteps : Z.of_nat (List.length (s :: rest)) - 1 =
                     Z.of_nat (List.length rest))
      by (cbn [List.length]; lia).
    cbn [call bind print ret app fst snd]. rewrite Hids.
    cbn [call bind print ret app fst snd]. rewrite Hrun, Hsteps.
    cbn [call bind print ret app fst snd filter is_warning is_arrive is_proceed
         is_not_found calculating path_found directions journey_complete].
    rewrite !filter_app, Hw, Hnf, !length_app, Ha, Hp.
    cbn [List.length app Nat.add In filter is_warning is_arrive is_proceed
         is_not_found journey_complete].
    split; [|split; [|split]]; auto.
    intros k [H|[H|[H|[H|[H|[H|[H|[H|H]]]]]]]]; try discriminate.
    + injection H as <-. split; lia.
    + apply in_app_or in H as [H|[H|[]]]; [elim (Hsc k H) | discriminate].
Qed.

(** X14. On a well-formed graph whose nodes all have details, the narrator
    ends without an exception and never prints the warning about a missing
    road; when it announces a journey of k steps it then prints k + 1
    arrivals and k roads. *)
Theorem narration_without_warning :
  forall (G : graph) (start_id_str end_id_str search_type : string)
         (networkx_id_to_details : Dict.t Z details),
    well_formed G -> described G networkx_id_to_details ->
    let result := find_and_print_path G start_id_str end_id_str search_type
                    networkx_id_to_details in
    snd result = Py.Return tt /\
    filter is_warning (fst result) = [] /\
    (forall k, In (StepCount k) (fst result) ->
       Z.of_nat (List.length (filter is_arrive (fst result))) = k + 1 /\
       Z.of_nat (List.length (filter is_proceed (fst result))) = k).
Proof.
  intros G a b mode details_dict Hwf Hd result.
  destruct (narration_aux G a b mode details_dict Hwf Hd) as (Hr & Hw & Hk & _).
  auto.
Qed.


Lemma pipeline_described ints blds name_col id_col precision lines :
  described
    (build_network_graph lines
       (fst (prepare_graph_nodes ints blds name_col id_col precision)) precision)
    (snd (prepare_graph_nodes ints blds name_col id_col precision)).
Proof.
  intros n Hn. apply build_network_graph_nodes_aux in Hn.
  apply mem_keys.
  replace (Dict.keys (snd (prepare_graph_nodes ints blds name_col id_col precision)))
    with (Dict.values (fst (prepare_graph_nodes ints blds name_col id_col precision)));
    auto.
  rewrite prepare_graph_nodes_loop. simpl.
  now destruct (prepare_graph_nodes_inv ints blds name_col id_col precision).
Qed.

Lemma narration_without_warning_witness :
  let index := prepare_graph_nodes sample_points [] "Name" "id" 6 in
  let G := build_network_graph sample_roads (fst index) 6 in
  snd (find_and_print_path G "main gate" "" "name" (snd index)) = Py.Return tt /\
  In (StepCount 2) (fst (find_and_print_path G "main gate" "" "name" (snd index))).
Proof.
  intros index G. split.
  - apply (narration_without_warning G "main gate" "" "name" (snd index)).
    + apply build_network_graph_well_formed.
    + apply pipeline_described.
  - vm_compute. tauto.
Defined.

(** ** Interactive pathfinding loop *)

(** What [read_node] gives: the input only gets shorter, it ends on the end
    of the input, on 'exit', or on an identifier that resolves, and what it
    prints is prompts and retry notices. *)
Lemma read_node_spec which details_dict mode stdin :
  forall printed rest r,
    read_node which details_dict mode stdin = (printed, rest, r) ->
    (List.length rest <= List.length stdin)%nat /\
    filter is_warning printed = [] /\ filter is_not_found printed = [] /\
    (r = Py.Raise "EOFError" \/
     (exists ans, r = Py.Return ans /\
        (List.length rest < List.length stdin)%nat /\
        forall n ident, ans = Some (n, ident) ->
          find_networkx_id ident details_dict (search_by_str mode) = Some n)).
Proof.
  induction stdin as [|line stdin IH]; intros printed rest r; simpl.
  - intros [= <- <- <-]. repeat split; auto.
  - destruct (Py.lower (Py.strip line) =? "exit")%string.
    { intros [= <- <- <-]. repeat split; auto. right. exists None.
      repeat split; auto. discriminate. }
    destruct (find_networkx_id (Py.strip line) details_dict (search_by_str mode))
      as [n|] eqn:Hf.
    { intros [= <- <- <-]. repeat split; auto. right. exists (Some (n, Py.strip line)).
      repeat split; auto. intros n' ident [= <- <-]. exact Hf. }
    destruct (read_node which details_dict mode stdin) as [[printed' rest'] r'].
    intros [= <- <- <-].
    destruct (IH printed' rest' r' eq_refl) as (Hlen & Hw & Hnf & Hr).
    repeat split; auto.
    destruct Hr as [->|(ans & -> & Hlt & Hans)]; auto.
    right. exists ans. repeat split; auto.
Qed.

Lemma quiet_app a b : quiet a -> quiet b -> quiet (a ++ b).
Proof.
  unfold quiet. intros [Ha1 Ha2] [Hb1 Hb2].
  now rewrite !filter_app, Ha1, Ha2, Hb1, Hb2.
Qed.

Lemma safe_sret {A : Type} (Q : A -> list string -> Prop) a stdin :
  Q a stdin -> safe Q (sret a) stdin.
Proof.
  intros HQ. unfold safe, sret, quiet. simpl. split; auto. right. now exists a.
Qed.

Lemma safe_sbind {A B : Type} (Q1 : A -> list string -> Prop)
    (Q2 : B -> list string -> Prop) (m : session A) (k : A -> session B) stdin :
  safe Q1 m stdin ->
  (forall a rest, Q1 a rest -> safe Q2 (k a) rest) ->
  safe Q2 (sbind m k) stdin.
Proof.
  unfold safe, sbind. destruct (m stdin) as [[printed rest] r].
  intros [Hq [->|(a & -> & HQ1)]] Hk; [split; auto|].
  specialize (Hk a rest HQ1). destruct (k a rest) as [[printed' rest'] r'].
  destruct Hk as [Hq' Hr']. split; auto. now apply quiet_app.
Qed.

Lemma safe_say (Q : unit -> list string -> Prop) ms stdin :
  quiet ms -> Q tt stdin -> safe Q (say ms) stdin.
Proof.
  intros Hq HQ. unfold safe, say. split; auto. right. now exists tt.
Qed.

Lemma safe_input (Q : string -> list string -> Prop) prompt stdin :
  quiet [prompt] ->
  (forall line rest, stdin = line :: rest -> Q line rest) ->
  safe Q (input prompt) stdin.
Proof.
  intros Hq HQ. unfold safe, input. destruct stdin as [|line rest]; split; auto.
  right. exists line. split; auto.
Qed.

Lemma safe_read_node which details_dict mode stdin :
  safe (fun ans rest =>
          (List.length rest < List.length stdin)%nat /\
          forall n ident, ans = Some (n, ident) ->
            find_networkx_id ident details_dict (search_by_str mode) = Some n)
       (read_node which details_dict mode) stdin.
Proof.
  unfold safe. destruct (read_node which details_dict mode stdin)
    as [[printed rest] r] eqn:Hrun.
  destruct (read_node_spec _ _ _ _ _ _ _ Hrun) as (_ & Hw & Hnf & Hr).
  split; [now split|]. destruct Hr as [->|(ans & -> & Hlt & Hans)]; auto.
  right. now exists ans.
Qed.

(** One pass through the loop on a well-formed, described graph: quiet, and
    if it returns, at least one line of input is gone. *)
Lemma safe_session_round G details_dict stdin :
  well_formed G -> described G details_dict ->
  safe (fun _ rest => (List.length rest < List.length stdin)%nat)
       (session_round G details_dict) stdin.
Proof.
  intros Hwf Hd. unfold session_round.
  apply (safe_sbind (fun _ rest => rest = stdin)).
  { apply safe_say; [now split | reflexivity]. }
  intros _ ? ->.
  apply (safe_sbind (fun _ rest => (List.length rest < List.length stdin)%nat)).
  { apply safe_input; [now split|]. intros line rest ->. simpl. lia. }
  intros answer stdin1 Hlen1.
  destruct (choose_search_type answer) as [mode said] eqn:Hmode.
  apply (safe_sbind (fun _ rest => rest = stdin1)).
  { apply safe_say; [|reflexivity]. unfold choose_search_type in Hmode.
    destruct (_ || _)%bool; [injection Hmode as <- <-; now split|].
    destruct (_ =? "name")%string; injection Hmode as <- <-; now split. }
  intros _ ? ->.
  eapply safe_sbind; [apply safe_read_node|].
  intros [[sid START_IDENTIFIER]|] stdin2 [Hlen2 Hstart].
  2: { apply (safe_sbind (fun _ rest => rest = stdin2)).
       - apply safe_say; [now split | reflexivity].
       - intros _ ? ->. apply safe_sret. lia. }
  eapply safe_sbind; [apply safe_read_node|].
  intros [[eid END_IDENTIFIER]|] stdin3 [Hlen3 Hend].
  2: { apply (safe_sbind (fun _ rest => rest = stdin3)).
       - apply safe_say; [now split | reflexivity].
       - intros _ ? ->. apply safe_sret. lia. }
  destruct (narration_aux G START_IDENTIFIER END_IDENTIFIER (search_by_str mode)
              details_dict Hwf Hd) as (Hret & Hw & _ & Hnf).
  apply (safe_sbind (fun _ rest => rest = stdin3)).
  { unfold safe, run. rewrite Hret. split.
    - split; auto. apply (Hnf sid eid); auto.
    - right. now exists tt. }
  intros _ ? ->.
  apply (safe_sbind (fun _ rest => (List.length rest < List.length stdin3)%nat)).
  { apply safe_input; [now split|]. intros line rest ->. simpl. lia. }
  intros another stdin4 Hlen4.
  destruct (Py.lower (Py.strip another) =? "yes")%string.
  - apply safe_sret. lia.
  - apply (safe_sbind (fun _ rest => rest = stdin4)).
    + apply safe_say; [now split | reflexivity].
    + intros _ ? ->. apply safe_sret. lia.
Qed.

Lemma safe_session_loop G details_dict :
  well_formed G -> described G details_dict ->
  forall fuel stdin,
    (List.length stdin < fuel)%nat ->
    safe (fun _ _ => True) (session_loop fuel G details_dict) stdin.
Proof.
  intros Hwf Hd. induction fuel as [|fuel IH]; intros stdin Hfuel; [lia|].
  simpl. eapply safe_sbind; [now apply safe_session_round|].
  intros [|] rest Hlen.
  - apply IH. lia.
  - now apply safe_sret.
Qed.

(** X15. For the graph and the details the program builds from any three
    layers, and for any lines typed by the user, the pathfinding loop ends
    normally, unless the input ends first ([EOFError]); it raises no other
    exception, never prints the warning about a missing road and never
    reaches the not-found errors of [find_and_print_path], whose identifiers
    it has resolved before the call. *)
Theorem session_is_safe :
  forall (intersections_gdf buildings_gdf : list point_row)
         (road_lines_gdf : list line_row)
         (name_col id_col : string) (precision : nat) (stdin : list string),
    let index := prepare_graph_nodes intersections_gdf buildings_gdf
                   name_col id_col precision in
    let G := build_network_graph road_lines_gdf (fst index) precision in
    let '(printed, rest, r) := pathfinding_session G (snd index) stdin in
    (r = Py.Return tt \/ r = Py.Raise "EOFError") /\
    filter is_warning printed = [] /\
    filter is_not_found printed = [].
Proof.
  intros ints blds lines name_col id_col precision stdin index G.
  pose proof (safe_session_loop G (snd index)
                (build_network_graph_well_formed _ _ _)
                (pipeline_described _ _ _ _ _ _)
                (S (List.length stdin)) stdin (Nat.lt_succ_diag_r _)) as Hsafe.
  unfold safe in Hsafe. unfold pathfinding_session.
  destruct (session_loop _ G (snd index) stdin) as [[printed rest] r].
  destruct Hsafe as [[Hw Hnf] Hr]. repeat split; auto.
  destruct Hr as [->|([] & -> & _)]; auto.
Qed.

(** ** Coordinate Key Encoder, further *)

Lemma length_append a b :
  String.length (a ++ b) = (String.length a + String.length b)%nat.
Proof. induction a as [|c a IH]; simpl; auto. Qed.

Lemma length_zeros k : String.length (zeros k) = k.
Proof. induction k; simpl; auto. Qed.

Lemma length_substring s : forall n m,
  (n + m <= String.length s)%nat -> String.length (substring n m s) = m.
Proof.
  induction s as [|c s IH]; intros n m Hlen; simpl in *.
  - destruct n, m; simpl; lia.
  - destruct n as [|n]; [destruct m as [|m]|]; simpl; auto.
    + rewrite IH; auto. lia.
    + apply IH. lia.
Qed.

Lemma string_forall_fixed_gen (f : ascii -> bool) p n :
  (forall c, is_digit c = true -> f c = true) -> f "."%char = true ->
  string_forall f (fixed p n) = true.
Proof.
  intros Hdigit Hpoint.
  assert (Hds : string_forall f
                  (zeros (S p - String.length (digits n)) ++ digits n) = true).
  { apply (string_forall_weaken is_digit); auto.
    now rewrite string_forall_app, string_forall_zeros, string_forall_digits. }
  unfold fixed. destruct p; auto.
  rewrite !string_forall_app, !string_forall_substring; auto.
  simpl. now rewrite Hpoint.
Qed.

Lemma format_f_no_comma p v : string_forall not_comma (format_f p v) = true.
Proof.
  assert (Hfixed : forall n, string_forall not_comma (fixed p n) = true).
  { intros n. apply string_forall_fixed_gen; auto.
    intros c. destruct c as [[] [] [] [] [] [] [] []]; simpl; auto; discriminate. }
  destruct v as [s|s| |s m e]; simpl; auto.
  - rewrite string_forall_app, Hfixed. now destruct s.
  - now destruct s.
  - rewrite string_forall_app, Hfixed. now destruct s.
Qed.

Lemma append_comma_split a : forall a' b b',
  string_forall not_comma a = true -> string_forall not_comma a' = true ->
  (a ++ String ","%char b)%string = (a' ++ String ","%char b')%string ->
  a = a' /\ b = b'.
Proof.
  induction a as [|c a IH]; intros [|c' a'] b b' Ha Ha'; simpl in *.
  - intros [= ->]. auto.
  - intros [= <- _]. discriminate.
  - intros [= -> _]. discriminate.
  - apply andb_prop in Ha as [_ Ha]. apply andb_prop in Ha' as [_ Ha'].
    intros [= -> Heq]. destruct (IH a' b b' Ha Ha' Heq) as [-> ->]. auto.
Qed.

(** X16. A key can be read back: the comma splits it in one way only, so
    two points have the same key exactly when their x are written alike and
    their y are written alike. *)
Theorem coords_key_splits :
  forall (p : nat) (a b : point),
    coords_key p a = coords_key p b <->
    format_f p (x a) = format_f p (x b) /\ format_f p (y a) = format_f p (y b).
Proof.
  intros p a b. unfold coords_key. split.
  - intros Hk. apply append_comma_split in Hk; auto using format_f_no_comma.
  - intros [-> ->]. reflexivity.
Qed.

(** X17. With a precision above zero, a coordinate that is a number is
    written as an optional minus sign, at least one digit, a point, and as
    many digits as the precision says. *)
Theorem format_f_shape :
  forall (p : nat) (v : spec_float),
    (0 < p)%nat -> is_number v = true ->
    exists whole frac,
      format_f p v = (sign_str (signbit v) ++ whole ++ "." ++ frac)%string /\
      whole <> "" /\ String.length frac = p /\
      string_forall is_digit whole = true /\ string_forall is_digit frac = true.
Proof.
  intros p v Hp Hv.
  assert (Hfixed : forall n, exists whole frac,
            fixed p n = (whole ++ "." ++ frac)%string /\
            whole <> "" /\ String.length frac = p /\
            string_forall is_digit whole = true /\
            string_forall is_digit frac = true).
  { intros n. unfold fixed.
    set (ds := (zeros (S p - String.length (digits n)) ++ digits n)%string).
    assert (Hlen : (S p <= String.length ds)%nat).
    { unfold ds. rewrite length_append, length_zeros. lia. }
    assert (Hds : string_forall is_digit ds = true).
    { unfold ds. now rewrite string_forall_app, string_forall_zeros,
                             string_forall_digits. }
    destruct p as [|p']; [lia|].
    exists (substring 0 (String.length ds - S p') ds),
           (substring (String.length ds - S p') (S p') ds).
    split; [reflexivity|]. split; [|split; [|split]].
    - intros Hempty.
      assert (Hl : String.length (substring 0 (String.length ds - S p') ds)
                   = (String.length ds - S p')%nat) by (apply length_substring; lia).
      rewrite Hempty in Hl. simpl in Hl. lia.
    - apply length_substring. lia.
    - now apply string_forall_substring.
    - now apply string_forall_substring. }
  destruct v as [s|s| |s m e]; try discriminate; simpl.
  - destruct (Hfixed 0) as (whole & frac & -> & H). now exists whole, frac.
  - destruct (Hfixed (scaled p m e)) as (whole & frac & -> & H). now exists whole, frac.
Qed.

Lemma format_f_shape_witness :
  exists whole frac,
    format_f 6 (x west_of_origin) = ("-" ++ whole ++ "." ++ frac)%string /\
    whole <> "" /\ String.length frac = 6%nat /\
    string_forall is_digit whole = true /\ string_forall is_digit frac = true.
Proof.
  apply (format_f_shape 6 (x west_of_origin)).
  - lia.
  - reflexivity.
Defined.

(** ** Graph Builder: more rows *)

(** X19. Rows only add: an edge that the graph has for some road rows is
    still there when more rows are put before or after them; later rows can
    change its attributes, not remove it. *)
Theorem build_network_graph_keeps_edges :
  forall (before road_lines_gdf after : list line_row) (index : Dict.t string Z)
         (precision : nat) (u v : Z),
    has_edge (build_network_graph road_lines_gdf index precision) u v = true ->
    has_edge (build_network_graph (before ++ road_lines_gdf ++ after) index precision)
      u v = true.
Proof.
  intros before lines after index precision u v He.
  apply has_edge_build_iff in He as (seg & Hin & Hc).
  apply has_edge_build_iff. exists seg. split; auto.
  unfold segments in *. rewrite !flat_map_app, !in_app_iff. auto.
Qed.

Lemma build_network_graph_keeps_edges_witness :
  has_edge (build_network_graph ([] ++ sample_roads ++ sample_roads) sample_index 6)
    0 1 = true.
Proof.
  apply (build_network_graph_keeps_edges [] sample_roads sample_roads).
  reflexivity.
Defined.

(** X20. The description kept on an edge has no white space at either end,
    and the geometry kept on it is a segment of the road layer that joins
    the two nodes. *)
Theorem edge_attributes_origin :
  forall (road_lines_gdf : list line_row) (index : Dict.t string Z)
         (precision : nat) (u v : Z) (attrs : edge_attrs),
    get_edge_data (build_network_graph road_lines_gdf index precision) u v = Some attrs ->
    Py.strip (description attrs) = description attrs /\
    exists seg, In seg (segments road_lines_gdf) /\
                connects index precision u v seg = true /\
                edge_geometry attrs = fst seg.
Proof.
  intros lines index precision u v attrs. rewrite get_edge_data_build.
  destruct (find _ _) as [seg|] eqn:Hf; simpl; [|discriminate].
  intros [= <-]. apply find_some_rev in Hf as [Hin Hc]. simpl. split.
  - apply strip_idempotent.
  - now exists seg.
Qed.

Lemma edge_attributes_origin_witness :
  Py.strip "Path2" = "Path2" /\
  exists seg, In seg (segments sample_roads) /\
              connects sample_index 6 0 1 seg = true /\
              road 1 0 = fst seg.
Proof.
  apply (edge_attributes_origin sample_roads sample_index 6 0 1
           {| edge_geometry := road 1 0; description := "Path2" |}).
  reflexivity.
Defined.

(** ** Node Index Builder: more rows *)











